(** * FileModule: external references of an OpenSCAD source file

    A shallow embedding of [src/FileModule.cc]: the registry of [use] and
    [include] references of a parsed file, their resolution
    ([resolveUseNodes], [resolveIncludeNodes], [resolveExternals]), the
    dependency pass over the module cache ([handleDependencies]), the
    freshness of includes ([includesChanged], [includeModified]) and the
    instantiation entry point ([instantiate], [instantiateWithFileContext]).

    Paths and file names are strings ([generic_string] is the identity on
    POSIX).  [time_t] is a signed integer.  The dictionary [externalDict] is
    a finite map with unique keys; a [shared_ptr] to a node of
    [externalList] is the position of that node in the list.  What the
    functions of this file do to the rest of the program is explicit state:
    the module cache, the calls made to the font cache and the messages
    handed to the printing macros. *)

From Stdlib Require Import ZArith String Ascii List Lia.
From stdpp Require Import base option list gmap strings fin_maps.

Local Open Scope string_scope.
Local Open Scope list_scope.
Local Open Scope Z_scope.

(** ** Strings and paths *)

Abbreviation time_t := Z (only parsing).

(** [fs::path::empty()]. *)
Definition path_empty (p : string) : bool :=
  match p with
  | EmptyString => true
  | String _ _ => false
  end.

(** The suffix of [s] that starts at the last occurrence of [c]. *)
Fixpoint from_last (c : ascii) (s : string) : option string :=
  match s with
  | EmptyString => None
  | String a s' =>
      match from_last c s' with
      | Some r => Some r
      | None => if Ascii.eqb a c then Some s else None
      end
  end.

(** [fs::path::filename()]: what follows the last directory separator. *)
Definition path_filename (p : string) : string :=
  match from_last "/" p with
  | Some (String _ r) => r
  | _ => p
  end.

(** [fs::path::extension()], as Boost.Filesystem documents it: when the
    file name contains a dot and is neither [.] nor [..], the part of it
    from the rightmost dot on; the empty path otherwise. *)
Definition extension (p : string) : string :=
  let f := path_filename p in
  if String.eqb f "." || String.eqb f ".." then ""
  else match from_last "." f with
       | Some r => r
       | None => ""
       end.

(** [boost::algorithm::to_lower_copy] in the classic locale. *)
Definition to_lower_char (c : ascii) : ascii :=
  let n := nat_of_ascii c in
  if (65 <=? n)%nat && (n <=? 90)%nat then ascii_of_nat (n + 32) else c.

Fixpoint to_lower_copy (s : string) : string :=
  match s with
  | EmptyString => EmptyString
  | String c s' => String (to_lower_char c) (to_lower_copy s')
  end.

(** The test of [resolveUseNodes] on the extension of a [use]d file. *)
Definition is_font_file (filename : string) : bool :=
  let extraw := extension filename in
  let ext := to_lower_copy extraw in
  String.eqb ext ".otf" || String.eqb ext ".ttf".

(** ** Data model *)

(** The two classes of nodes kept in [externalList]; both carry the file
    name as it is written in the source. *)
Inductive ExternalNode :=
| UseNode (filename : string)
| IncludeNode (filename : string).

Definition node_filename (n : ExternalNode) : string :=
  match n with
  | UseNode f => f
  | IncludeNode f => f
  end.

(** A [shared_ptr<ASTNode>] into [externalList]. *)
Abbreviation NodeRef := nat (only parsing).

(** Exceptions that travel through this file.  [EvaluationException]
    stands for the class and its subclasses (the experimental-feature
    exception among them), [std_out_of_range] is what [at] throws, and
    [OtherException] is any exception outside these classes. *)
Inductive Exn :=
| EvaluationException (what : string)
| std_out_of_range
| OtherException (what : string).

(** How a call ends: it returns, an exception leaves it, or an [assert]
    stops the program. *)
Inductive Outcome (A : Type) :=
| Returned (v : A)
| Raised (e : Exn)
| AssertionFailed.
Arguments Returned {A} v.
Arguments Raised {A} e.
Arguments AssertionFailed {A}.

(** The file system as the functions of this file read it.  It does not
    change while one of them runs. *)
Record FileSystem := {
  (** [find_valid_path(sourcepath, localpath)]; the empty path when no
      candidate exists *)
  find_valid_path : string -> string -> string;
  (** [fs::is_regular] *)
  is_regular : string -> bool;
  (** [StatCache::stat]: the [st_mtime] of the file, [None] when the call
      does not return 0 *)
  stat_mtime : string -> option time_t;
  (** [std::ifstream]: the text of the file, [None] when [is_open] fails *)
  ifstream_read : string -> option string
}.

(** [!p] for a pointer [p]. *)
Definition is_null {A : Type} (p : option A) : bool :=
  match p with
  | None => true
  | Some _ => false
  end.

(** [insert] of a pair into [externalDict]: a key that is present keeps
    its value.  The container has [at], so its keys are unique. *)
Definition dict_insert {V : Type} (key : string) (value : V)
    (dict : gmap string V) : gmap string V :=
  match dict !! key with
  | Some _ => dict
  | None => <[key := value]> dict
  end.

Section FileModule.

(** Compiled modules are known by their address; the module cache and the
    scope of a file are owned by other parts of the program. *)
Context {ModulePtr : Type} `{EqDecision ModulePtr}.
Context {ModuleCache LocalScope : Type}.

(** The messages this file hands to the printing macros, by call site. *)
Inductive Diagnostic :=
| FontError (filename : string)
    (** [PRINTB("ERROR: Can't read font with path '%s'")] *)
| IncludeWarning (localpath : string)
    (** [PRINTB("WARNING: Can't open include file '%s'.")] *)
| IncludeOpenError (fullname : string)
    (** [PRINTB("Can't open include file '%s'!")] *)
| IncludeParseError (fullname : string)
    (** [PRINTB("Can't parse include file '%s'!")] *)
| TraceChanged (filename : string) (oldmodule newmodule : option ModulePtr)
    (** [PRINTDB("  %s: %p -> %p")] *)
| TraceUnchanged (filename : string) (oldmodule : option ModulePtr)
    (** [PRINTDB("  %s: %p")] *)
| LibraryWarning (filename : string)
    (** [PRINTB_NOCACHE("WARNING: Failed to compile library '%s'.")] *)
| ExceptionMessage (what : string)
    (** [PRINT(e.what())] *).

(** The state outside the [FileModule] that its methods change. *)
Record World := mkWorld {
  mcache : ModuleCache;        (** [ModuleCache::instance()] *)
  fonts : list string;         (** the calls of [register_font_file] *)
  diag : list Diagnostic       (** the messages printed, oldest first *)
}.

Definition report (d : Diagnostic) (w : World) : World :=
  mkWorld (mcache w) (fonts w) (diag w ++ [d]).

Definition register_font_file (filename : string) (w : World) : World :=
  mkWorld (mcache w) (fonts w ++ [filename]) (diag w).

Definition with_mcache (c : ModuleCache) (w : World) : World :=
  mkWorld c (fonts w) (diag w).

Record FileModule := mkFileModule {
  is_handling_dependencies : bool;
  path : string;
  filename : string;
  scope : LocalScope;
  externalList : list ExternalNode;
  externalDict : gmap string NodeRef
}.

Definition with_handling (b : bool) (this : FileModule) : FileModule :=
  mkFileModule b (path this) (filename this) (scope this)
    (externalList this) (externalDict this).

Definition with_externalList (l : list ExternalNode) (this : FileModule)
    : FileModule :=
  mkFileModule (is_handling_dependencies this) (path this) (filename this)
    (scope this) l (externalDict this).

Definition with_externalDict (d : gmap string NodeRef) (this : FileModule)
    : FileModule :=
  mkFileModule (is_handling_dependencies this) (path this) (filename this)
    (scope this) (externalList this) d.

(** What a call leaves behind: how it ended, the object and the world. *)
Record Run (A : Type) := mkRun {
  result : Outcome A;
  self : FileModule;
  world : World
}.
#[local] Arguments mkRun {A} _ _ _.
#[local] Arguments result {A} _.
#[local] Arguments self {A} _.
#[local] Arguments world {A} _.

(** [ModuleCache::evaluate(filename, module)]: the module it leaves in
    [module] and the time it returns, or the exception that leaves it. *)
Inductive EvalResult :=
| EvalReturns (newmodule : option ModulePtr) (mtime : time_t)
| EvalThrows (e : Exn).

(** The collaborators of this file: the path test of Boost, the parser,
    the three operations of [ModuleCache], whether [PRINTDB] prints, and
    the order in which a range-for visits [externalDict]. *)
Class Collaborators := {
  is_absolute : string -> bool;
  parse : string -> string -> option FileModule;
  isCached : ModuleCache -> string -> bool;
  lookup : ModuleCache -> string -> option ModulePtr;
  evaluate : FileSystem -> ModuleCache -> string -> ModuleCache * EvalResult;
  debug : bool;
  dict_order : gmap string NodeRef -> list (string * NodeRef)
}.

Context `{Collaborators}.

Definition printdb (d : Diagnostic) (w : World) : World :=
  if debug then report d w else w.

(** *** The constructor and the registry *)

Definition FileModule_new (path filename : string) (scope : LocalScope)
    : FileModule :=
  mkFileModule false path filename scope [] ∅.

Definition addUseNode (usenode : string) (this : FileModule) : FileModule :=
  with_externalList (externalList this ++ [UseNode usenode]) this.

Definition addIncludeNode (includenode : string) (this : FileModule)
    : FileModule :=
  with_externalList (externalList this ++ [IncludeNode includenode]) this.

(** *** resolveUseNodes *)

(** The body of the loop; [node] is the pointer to the [i]-th element. *)
Definition resolveUseNodes_body (fs : FileSystem) (this_path : string)
    (node : NodeRef) (n : ExternalNode)
    (st : gmap string NodeRef * World) : gmap string NodeRef * World :=
  match n with
  | IncludeNode _ => st
  | UseNode filename =>
      let fullpath := find_valid_path fs this_path filename in
      if is_font_file filename then
        if is_regular fs filename
        then (st.1, register_font_file filename st.2)
        else (st.1, report (FontError filename) st.2)
      else (dict_insert filename node st.1, st.2)
  end.

Fixpoint resolveUseNodes_loop (fs : FileSystem) (this_path : string)
    (i : nat) (nodes : list ExternalNode)
    (st : gmap string NodeRef * World) : gmap string NodeRef * World :=
  match nodes with
  | [] => st
  | n :: rest =>
      resolveUseNodes_loop fs this_path (S i) rest
        (resolveUseNodes_body fs this_path i n st)
  end.

Definition resolveUseNodes (fs : FileSystem) (this : FileModule) (w : World)
    : FileModule * World :=
  let st :=
    resolveUseNodes_loop fs (path this) 0 (externalList this)
      (externalDict this, w) in
  (with_externalDict st.1 this, st.2).

(** *** resolveIncludeNodes *)

Fixpoint resolveIncludeNodes_loop (fs : FileSystem) (this_path : string)
    (nodes : list ExternalNode) (w : World) : World :=
  match nodes with
  | [] => w
  | UseNode _ :: rest => resolveIncludeNodes_loop fs this_path rest w
  | IncludeNode localpath :: rest =>
      let fullpath := find_valid_path fs this_path localpath in
      if path_empty fullpath then
        resolveIncludeNodes_loop fs this_path rest
          (report (IncludeWarning localpath) w)
      else
        let fullname := fullpath in
        match ifstream_read fs fullname with
        | None => report (IncludeOpenError fullname) w
        | Some text =>
            match parse text fullname with
            | None => report (IncludeParseError fullname) w
            | Some inc_mod => resolveIncludeNodes_loop fs this_path rest w
            end
        end
  end.

Definition resolveIncludeNodes (fs : FileSystem) (this : FileModule)
    (w : World) : FileModule * World :=
  (this, resolveIncludeNodes_loop fs (path this) (externalList this) w).

(** *** resolveExternals *)

Definition resolveExternals (fs : FileSystem) (this : FileModule) (w : World)
    : FileModule * World :=
  let r := resolveIncludeNodes fs this w in
  resolveUseNodes fs r.1 r.2.

(** *** includesChanged and includeModified *)

Definition includeModified (fs : FileSystem) (node : ExternalNode) : time_t :=
  match stat_mtime fs (node_filename node) with
  | Some st_mtime => st_mtime
  | None => 0
  end.

Definition includesChanged (fs : FileSystem) (this : FileModule) : time_t :=
  fold_left
    (fun latest item =>
       match item with
       | IncludeNode _ =>
           let mtime := includeModified fs item in
           if mtime >? latest then mtime else latest
       | UseNode _ => latest
       end)
    (externalList this) 0.

(** *** getUseNodes *)

Definition getUseNodes (this : FileModule) : list ExternalNode :=
  List.filter
    (fun n => match n with UseNode _ => true | IncludeNode _ => false end)
    (externalList this).

(** *** handleDependencies

    While the guard is set, a call of [handleDependencies] on the same
    object from inside [evaluate] returns at its first line, so
    [evaluate] acts on the file system and the cache alone. *)

(** The locals of [handleDependencies] that live across its first loop,
    with the world. *)
Record DepState := mkDepState {
  dep_world : World;
  updates : list (string * string);
  latest : time_t
}.

(** The [if (found)] block, entered with the absolute file name. *)
Definition consult_cache (fs : FileSystem) (wasmissing : bool)
    (filename : string) (st : DepState) : option Exn * DepState :=
  let w := dep_world st in
  let wascached := isCached (mcache w) filename in
  let oldmodule := lookup (mcache w) filename in
  match evaluate fs (mcache w) filename with
  | (cache', EvalThrows e) =>
      (Some e, mkDepState (with_mcache cache' w) (updates st) (latest st))
  | (cache', EvalReturns newmodule mtime) =>
      let w := with_mcache cache' w in
      let latest := if mtime >? latest st then mtime else latest st in
      let changed :=
        negb (is_null newmodule) && bool_decide (newmodule ≠ oldmodule) in
      let w :=
        if changed then printdb (TraceChanged filename oldmodule newmodule) w
        else printdb (TraceUnchanged filename oldmodule) w in
      let w :=
        if is_null newmodule && negb wascached && negb wasmissing
        then report (LibraryWarning filename) w
        else w in
      (None, mkDepState w (updates st) latest)
  end.

(** The body of the first loop. *)
Definition dependency_body (fs : FileSystem) (this_path : string)
    (externalEntry : string * NodeRef) (st : DepState)
    : option Exn * DepState :=
  let filename := externalEntry.1 in
  if negb (is_absolute filename) then
    let fullpath := find_valid_path fs this_path filename in
    if negb (path_empty fullpath) then
      consult_cache fs true fullpath
        (mkDepState (dep_world st) (updates st ++ [(filename, fullpath)])
           (latest st))
    else (None, st)
  else consult_cache fs false filename st.

(** The first loop; an exception ends it. *)
Fixpoint dependency_loop (fs : FileSystem) (this_path : string)
    (entries : list (string * NodeRef)) (st : DepState)
    : option Exn * DepState :=
  match entries with
  | [] => (None, st)
  | externalEntry :: rest =>
      match dependency_body fs this_path externalEntry st with
      | (Some e, st') => (Some e, st')
      | (None, st') => dependency_loop fs this_path rest st'
      end
  end.

(** The second loop: each located file is inserted under its new name
    and erased under the old one. *)
Fixpoint apply_updates (updates : list (string * string))
    (dict : gmap string NodeRef) : option Exn * gmap string NodeRef :=
  match updates with
  | [] => (None, dict)
  | files :: rest =>
      match dict !! files.1 with
      | None => (Some std_out_of_range, dict)
      | Some node =>
          apply_updates rest (delete files.1 (dict_insert files.2 node dict))
      end
  end.

Definition handleDependencies (fs : FileSystem) (this : FileModule)
    (w : World) : Run time_t :=
  if is_handling_dependencies this then mkRun (Returned 0) this w
  else
    let this := with_handling true this in
    match
      dependency_loop fs (path this) (dict_order (externalDict this))
        (mkDepState w [] 0)
    with
    | (Some e, st) => mkRun (Raised e) this (dep_world st)
    | (None, st) =>
        match apply_updates (updates st) (externalDict this) with
        | (Some e, dict) =>
            mkRun (Raised e) (with_externalDict dict this) (dep_world st)
        | (None, dict) =>
            mkRun (Returned (latest st))
              (with_handling false (with_externalDict dict this))
              (dep_world st)
        end
    end.

(** *** instantiate and instantiateWithFileContext *)

Context {Ctx FileContext ModuleInstantiation EvalContext AbstractNode : Type}.

(** The evaluation engine: the constructor of [FileContext],
    [FileContext::initializeModule] and [LocalScope::instantiateChildren]. *)
Class Evaluator := {
  FileContext_new : Ctx -> FileContext;
  initializeModule : FileContext -> FileModule -> Outcome FileContext;
  instantiateChildren : LocalScope -> FileContext -> Outcome (list AbstractNode)
}.

Context `{Evaluator}.

Record RootNode := mkRootNode {
  modinst : ModuleInstantiation;
  children : list AbstractNode
}.

(** The statements of the [try] block up to the insertion. *)
Definition instantiate_try (this : FileModule) (ctx : FileContext)
    : Outcome (list AbstractNode) :=
  match initializeModule ctx this with
  | Returned ctx => instantiateChildren (scope this) ctx
  | Raised e => Raised e
  | AssertionFailed => AssertionFailed
  end.

Definition instantiateWithFileContext (this : FileModule) (ctx : FileContext)
    (inst : ModuleInstantiation) (evalctx : option EvalContext) (w : World)
    : Outcome RootNode * World :=
  match evalctx with
  | Some _ => (AssertionFailed, w)
  | None =>
      let node := mkRootNode inst [] in
      match instantiate_try this ctx with
      | Returned instantiatednodes =>
          (Returned (mkRootNode inst (children node ++ instantiatednodes)), w)
      | Raised (EvaluationException what) =>
          (Returned node, report (ExceptionMessage what) w)
      | Raised e => (Raised e, w)
      | AssertionFailed => (AssertionFailed, w)
      end
  end.

Definition instantiate (this : FileModule) (ctx : Ctx)
    (inst : ModuleInstantiation) (evalctx : option EvalContext) (w : World)
    : Outcome RootNode * World :=
  match evalctx with
  | Some _ => (AssertionFailed, w)
  | None =>
      let context := FileContext_new ctx in
      instantiateWithFileContext this context inst evalctx w
  end.

End FileModule.

Arguments mkRun {_ _ _ A} _ _ _.
Arguments result {_ _ _ A} _.
Arguments self {_ _ _ A} _.
Arguments world {_ _ _ A} _.

(** *** print *)

Section Printing.

Context {LocalScope : Type}.

(** What [ASTNode::print] of a node and [LocalScope::print] write for an
    indentation. *)
Class Printer := {
  print_node : ExternalNode -> string -> string;
  print_scope : LocalScope -> string -> string
}.

Context `{Printer}.

(** [print]: the stream after the nodes, in order, and then the scope
    have been written to it. *)
Definition print (this : @FileModule LocalScope) (stream indent : string)
    : string :=
  fold_left (fun stream node => stream +:+ print_node node indent)
    (externalList this) stream
  +:+ print_scope (scope this) indent.

End Printing.

Definition is_include_node (n : ExternalNode) : bool :=
  match n with
  | IncludeNode _ => true
  | UseNode _ => false
  end.

(** ** What a dependency pass is expected to do

    The definitions of this section say, without the accumulators of the
    code, which files a pass hands to [ModuleCache::evaluate] and what
    comes back. *)

Section Specification.

Context {ModulePtr : Type} `{EqDecision ModulePtr}.
Context {ModuleCache LocalScope : Type}.
Context `{!@Collaborators ModulePtr ModuleCache LocalScope}.

(** The absolute name under which an entry is looked up in the cache:
    its key when that is absolute, else what the search finds for it;
    [None] when the search finds nothing. *)
Definition effective_key (fs : FileSystem) (this_path key : string)
    : option string :=
  if is_absolute key then Some key
  else
    let fullpath := find_valid_path fs this_path key in
    if path_empty fullpath then None else Some fullpath.

(** One consultation of the module cache. *)
Record Visit := mkVisit {
  v_key : string;                      (** the key of the entry *)
  v_filename : string;                 (** its effective key *)
  v_wasmissing : bool;                 (** the key was relative *)
  v_wascached : bool;                  (** [isCached] before [evaluate] *)
  v_oldmodule : option ModulePtr;      (** [lookup] before [evaluate] *)
  v_result : @EvalResult ModulePtr     (** what [evaluate] answered *)
}.

(** The consultations of a pass over [entries] that starts with the cache
    [c], in order; the one that throws, if any, is the last. *)
Fixpoint visits (fs : FileSystem) (this_path : string) (c : ModuleCache)
    (entries : list (string * NodeRef)) : list Visit :=
  match entries with
  | [] => []
  | (key, _) :: rest =>
      match effective_key fs this_path key with
      | None => visits fs this_path c rest
      | Some filename =>
          let r := evaluate fs c filename in
          mkVisit key filename (negb (is_absolute key)) (isCached c filename)
            (lookup c filename) r.2
          :: match r.2 with
             | EvalThrows _ => []
             | EvalReturns _ _ => visits fs this_path r.1 rest
             end
      end
  end.

(** The cache such a pass leaves. *)
Fixpoint cache_after (fs : FileSystem) (this_path : string) (c : ModuleCache)
    (entries : list (string * NodeRef)) : ModuleCache :=
  match entries with
  | [] => c
  | (key, _) :: rest =>
      match effective_key fs this_path key with
      | None => cache_after fs this_path c rest
      | Some filename =>
          let r := evaluate fs c filename in
          match r.2 with
          | EvalThrows _ => r.1
          | EvalReturns _ _ => cache_after fs this_path r.1 rest
          end
      end
  end.

Definition visit_mtime (v : Visit) : option time_t :=
  match v_result v with
  | EvalReturns _ mtime => Some mtime
  | EvalThrows _ => None
  end.

Definition visit_thrown (v : Visit) : option Exn :=
  match v_result v with
  | EvalReturns _ _ => None
  | EvalThrows e => Some e
  end.

(** The times [evaluate] returned during the pass. *)
Definition mtimes (vs : list Visit) : list time_t := omap visit_mtime vs.

(** The exception that ended the pass, if one did. *)
Definition thrown (vs : list Visit) : option Exn :=
  match omap visit_thrown vs with
  | [] => None
  | e :: _ => Some e
  end.

(** The three conditions of the warning, on one consultation. *)
Definition visit_warns (v : Visit) : bool :=
  match v_result v with
  | EvalReturns newmodule _ =>
      is_null newmodule && negb (v_wascached v) && negb (v_wasmissing v)
  | EvalThrows _ => false
  end.

(** The rename a pass remembers for a key: none for an absolute key and
    none when the search fails. *)
Definition rename_of (fs : FileSystem) (this_path key : string)
    : list (string * string) :=
  if is_absolute key then []
  else
    let fullpath := find_valid_path fs this_path key in
    if path_empty fullpath then [] else [(key, fullpath)].

(** The renames a pass over [entries] remembers. *)
Definition renames (fs : FileSystem) (this_path : string)
    (entries : list (string * NodeRef)) : list (string * string) :=
  flat_map (fun e : string * NodeRef => rename_of fs this_path e.1) entries.

(** The node the second loop puts under a key [q] that the dictionary
    lacks: that of the first rename whose target is [q]. *)
Fixpoint claimed_by (updates : list (string * string))
    (dict : gmap string NodeRef) (q : string) : option NodeRef :=
  match updates with
  | [] => None
  | files :: rest =>
      if decide (files.2 = q) then dict !! files.1
      else claimed_by rest dict q
  end.

(** The dictionary after the renames, key by key: a renamed key is gone,
    a key that was there keeps its node, and a new key gets the node of
    the first entry renamed to it. *)
Definition renamed_lookup (updates : list (string * string))
    (dict : gmap string NodeRef) (q : string) : option NodeRef :=
  if decide (q ∈ updates.*1) then None
  else
    match dict !! q with
    | Some node => Some node
    | None => claimed_by updates dict q
    end.

(** The files named by the library warnings among [ds], in order. *)
Definition library_warnings (ds : list (@Diagnostic ModulePtr)) : list string :=
  omap (fun d => match d with LibraryWarning f => Some f | _ => None end) ds.

(** How often the library warning for [filename] occurs in [ds]. *)
Definition count_library_warnings (filename : string)
    (ds : list (@Diagnostic ModulePtr)) : nat :=
  count_occ string_dec (library_warnings ds) filename.

(** The message with which [resolveIncludeNodes] gives up at a node: the
    node is an include that is found and cannot be opened, or cannot be
    parsed. *)
Definition include_failure (fs : FileSystem) (this_path : string)
    (n : ExternalNode) : option (@Diagnostic ModulePtr) :=
  match n with
  | UseNode _ => None
  | IncludeNode localpath =>
      let fullname := find_valid_path fs this_path localpath in
      if path_empty fullname then None
      else
        match ifstream_read fs fullname with
        | None => Some (IncludeOpenError fullname)
        | Some text =>
            match parse text fullname with
            | None => Some (IncludeParseError fullname)
            | Some _ => None
            end
        end
  end.

(** The messages that [handleDependencies] prints itself: the library
    warning and the two traces. *)
Definition dependency_message (d : @Diagnostic ModulePtr) : bool :=
  match d with
  | LibraryWarning _ | TraceChanged _ _ _ | TraceUnchanged _ _ => true
  | _ => false
  end.

(** Every node that the dictionary of a file holds is a [use] node of its
    list, and not one for a font file. *)
Definition dict_refers_to_uses (this : @FileModule LocalScope) : Prop :=
  forall key (node : NodeRef),
    externalDict this !! key = Some node ->
    exists f, externalList this !! node = Some (UseNode f) /\
              is_font_file f = false.

(** The modification times of the include nodes of a file, in order. *)
Definition include_mtimes (fs : FileSystem) (this : @FileModule LocalScope)
    : list time_t :=
  includeModified fs <$> List.filter is_include_node (externalList this).

End Specification.

(** ** What the resolution of the references is expected to do *)

(** The file names of the [use] nodes of a list, in order. *)
Definition use_filenames (nodes : list ExternalNode) : list string :=
  omap (fun n => match n with UseNode f => Some f | IncludeNode _ => None end)
    nodes.

(** The file names of the [include] nodes of a list, in order. *)
Definition include_filenames (nodes : list ExternalNode) : list string :=
  omap (fun n => match n with IncludeNode f => Some f | UseNode _ => None end)
    nodes.

(** The position, counted from [i], of the first [use] node for [q]. *)
Fixpoint first_use (i : nat) (nodes : list ExternalNode) (q : string)
    : option NodeRef :=
  match nodes with
  | [] => None
  | UseNode f :: rest =>
      if decide (f = q) then Some i else first_use (S i) rest q
  | IncludeNode _ :: rest => first_use (S i) rest q
  end.

(** The dictionary after [resolveUseNodes], key by key: a key that was
    there keeps its node, a font file is not entered, and any other name
    gets the first [use] node that carries it. *)
Definition resolved_lookup (nodes : list ExternalNode) (i : nat)
    (dict : gmap string NodeRef) (q : string) : option NodeRef :=
  match dict !! q with
  | Some node => Some node
  | None => if is_font_file q then None else first_use i nodes q
  end.

(** The largest element of a list, and 0 for the empty list. *)
Definition maximum_or_zero (l : list time_t) : time_t :=
  match l with
  | [] => 0
  | x :: l' => fold_right Z.max x l'
  end.

(** ** A file system and a module cache to run the functions on *)

Module Scenario.

(** Compiled modules are told apart by the file and the time of the
    compilation that made them. *)
Abbreviation ModulePtr := (string * time_t)%type (only parsing).

(** Modelled from the spec: the entries of ModuleCache, which is not part
    of this file.  An entry holds the most recently compiled module, or
    its absence on failure, and the modification time seen at compile
    time. *)
Abbreviation ModuleCache := (gmap string (option (string * time_t) * time_t))
  (only parsing).

Abbreviation LocalScope := unit (only parsing).

(** A file on disk: its absolute path, modification time and text. *)
Record File := mkFile {
  file_path : string;
  file_mtime : time_t;
  file_text : string
}.

Fixpoint find_file (p : string) (files : list File) : option File :=
  match files with
  | [] => None
  | f :: rest => if String.eqb (file_path f) p then Some f else find_file p rest
  end.

Definition starts_with_slash (p : string) : bool :=
  match p with
  | String "/" _ => true
  | _ => false
  end.

(** Modelled from the spec: PathResolver.resolve, reduced to its first
    rule (the file of that name under the base directory, or the absolute
    name itself), with no library search path.  Relative names are known
    to the other operations only through this search: the working
    directory holds none of the files. *)
Definition disk (files : list File) : FileSystem := {|
  find_valid_path sourcepath localpath :=
    let fpath :=
      if starts_with_slash localpath then localpath
      else sourcepath +:+ "/" +:+ localpath in
    match find_file fpath files with
    | Some _ => fpath
    | None => ""
    end;
  is_regular p := bool_decide (is_Some (find_file p files));
  stat_mtime p := file_mtime <$> find_file p files;
  ifstream_read p := file_text <$> find_file p files
|}.

(** A text compiles unless it is this one. *)
Definition compiles (text : string) : bool :=
  negb (String.eqb text "syntax error").

(** Modelled from the spec: ModuleCache.evaluate, which recompiles when
    the file on disk is newer than the entry (or there is no entry) and
    returns the entry unchanged otherwise; a file that is not there
    leaves the cache as it is.  A file with the text [throw] makes the
    compilation throw. *)
Definition evaluate_model (fs : FileSystem) (c : ModuleCache)
    (filename : string)
    : ModuleCache * @EvalResult (string * time_t) :=
  match stat_mtime fs filename, ifstream_read fs filename with
  | Some mtime, Some text =>
      if String.eqb text "throw" then (c, EvalThrows (OtherException "throw"))
      else
        let recompiled :=
          let module := if compiles text then Some (filename, mtime) else None in
          (<[filename := (module, mtime)]> c, EvalReturns module mtime) in
        match c !! filename with
        | Some (module, cached_mtime) =>
            if cached_mtime <? mtime then recompiled
            else (c, EvalReturns module cached_mtime)
        | None => recompiled
        end
  | _, _ => (c, EvalReturns None 0)
  end.

#[export] Instance collaborators
    : @Collaborators (string * time_t)
        (gmap string (option (string * time_t) * time_t)) unit := {|
  is_absolute := starts_with_slash;
  parse text fullname :=
    if compiles text then Some (FileModule_new "" fullname tt) else None;
  isCached c filename := bool_decide (is_Some (c !! filename));
  lookup c filename := c !! filename ≫= fst;
  evaluate := evaluate_model;
  debug := false;
  dict_order := map_to_list
|}.

Definition empty_world : @World (string * time_t) ModuleCache :=
  mkWorld ∅ [] [].

(** The file [/proj/a.scad] with the given [use]d names, after
    [resolveExternals]. *)
Definition file_using (fs : FileSystem) (uses : list string)
    : @FileModule unit :=
  (resolveExternals fs
     (fold_left (fun this u => addUseNode u this) uses
        (FileModule_new "/proj" "a.scad" tt))
     empty_world).1.

(** A file before [resolveExternals], with the given [include]d names. *)
Definition file_including (includes : list string) : @FileModule unit :=
  fold_left (fun this i => addIncludeNode i this) includes
    (FileModule_new "/proj" "a.scad" tt).

(** Two libraries, one of them next to the source file. *)
Definition two_libraries : FileSystem :=
  disk [mkFile "/proj/lib/b.scad" 100 "cube();";
        mkFile "/opt/lib/c.scad" 250 "sphere();"].

(** A library whose modification time lies before 1970. *)
Definition old_library : FileSystem :=
  disk [mkFile "/lib/old.scad" (-1) "cube();"].

(** A library that does not compile. *)
Definition broken_library : FileSystem :=
  disk [mkFile "/lib/broken.scad" 100 "syntax error"].

(** A library whose compilation throws. *)
Definition throwing_library : FileSystem :=
  disk [mkFile "/lib/t.scad" 1 "throw"].

(** Nothing on disk, and then the library next to the source file. *)
Definition nothing : FileSystem := disk [].

Definition library_created : FileSystem :=
  disk [mkFile "/proj/lib/b.scad" 100 "cube();"].

(** A library next to the source file, used under two names. *)
Definition one_library : FileSystem :=
  disk [mkFile "/proj/b.scad" 100 "cube();"].

(** A font next to the source file. *)
Definition font_beside_source : FileSystem :=
  disk [mkFile "/proj/Foo.TTF" 1 "font"].

(** Two included files with times before 1970, and one included file
    next to the source file. *)
Definition old_includes : FileSystem :=
  disk [mkFile "/old/a.scad" (-5) "a = 1;"; mkFile "/old/b.scad" (-3) "b = 2;"].

Definition include_beside_source : FileSystem :=
  disk [mkFile "/proj/inc.scad" 100 "c = 3;"].

(** An include that parses and one that does not. *)
Definition some_includes : FileSystem :=
  disk [mkFile "/proj/ok.scad" 10 "d = 4;";
        mkFile "/proj/bad.scad" 20 "syntax error"].


(** The files that use and include them. *)
Definition three_uses : @FileModule unit :=
  file_using two_libraries ["lib/b.scad"; "/opt/lib/c.scad"; "missing.scad"].

Definition busy_file : @FileModule unit := with_handling true three_uses.

Definition old_user : @FileModule unit :=
  file_using old_library ["/lib/old.scad"].

Definition broken_user : @FileModule unit :=
  file_using broken_library ["/lib/broken.scad"].


Definition throwing_user : @FileModule unit :=
  file_using throwing_library ["/lib/t.scad"].

Definition early_user : @FileModule unit := file_using nothing ["lib/b.scad"].

Definition twice_user : @FileModule unit :=
  file_using one_library ["b.scad"; "/proj/b.scad"].

Definition font_user : @FileModule unit :=
  addUseNode "Foo.TTF" (FileModule_new "/proj" "a.scad" tt).

Definition double_user : @FileModule unit :=
  addUseNode "a.scad" (addUseNode "a.scad" (FileModule_new "/proj" "a.scad" tt)).

Definition old_includer : @FileModule unit :=
  file_including ["/old/a.scad"; "/old/b.scad"].

Definition includer : @FileModule unit := file_including ["inc.scad"].

Definition experimental_file : @FileModule bool :=
  FileModule_new "/proj" "experimental.scad" true.

(** A file with an include that is there, one that is missing, one that
    does not parse and one more that is missing. *)
Definition failing_includer : @FileModule unit :=
  file_including ["ok.scad"; "missing.scad"; "bad.scad"; "gone.scad"].

(** A file whose includes do not fail: one is there, one is missing. *)
Definition careful_includer : @FileModule unit :=
  file_including ["ok.scad"; "missing.scad"].

(** A file with three [use]s, before [resolveExternals]. *)
Definition fresh_user : @FileModule unit :=
  fold_left (fun this u => addUseNode u this)
    ["lib/b.scad"; "/opt/lib/c.scad"; "missing.scad"]
    (FileModule_new "/proj" "a.scad" tt).

(** An evaluation engine: a file named [experimental.scad] uses a
    feature that is switched off, a scope [false] fails while its
    children are instantiated, and any other file yields two nodes. *)
#[export] Instance evaluator : @Evaluator bool nat nat string := {|
  FileContext_new := fun ctx : nat => S ctx;
  initializeModule := fun (ctx : nat) (this : @FileModule bool) =>
    if String.eqb (filename this) "experimental.scad"
    then Raised (EvaluationException "experimental feature")
    else Returned ctx;
  instantiateChildren := fun (scope : bool) (ctx : nat) =>
    if scope then Returned ["cube"; "sphere"]
    else Raised (EvaluationException "division by zero")
|}.

End Scenario.

(** * Properties *)

Section Properties.

Context {ModulePtr : Type} `{EqDecision ModulePtr}.
Context {ModuleCache LocalScope : Type}.
Context `{!@Collaborators ModulePtr ModuleCache LocalScope}.

Implicit Types (fs : FileSystem) (this : @FileModule LocalScope).
Implicit Types (w : @World ModulePtr ModuleCache).
Implicit Types (dict : gmap string NodeRef) (entries : list (string * NodeRef)).
Implicit Types (st : @DepState ModulePtr ModuleCache).

(** A range-for over a map visits each of its entries once. *)
Hypothesis dict_order_entries :
  forall dict, dict_order dict ≡ₚ map_to_list dict.

(** ** The running maximum *)

Lemma latest_step (mtime latest : time_t) :
  (if mtime >? latest then mtime else latest) = Z.max latest mtime.
Proof. destruct (Z.gtb_spec mtime latest); lia. Qed.

Lemma fold_left_max_le (l : list time_t) (a : time_t) :
  a <= fold_left Z.max l a.
Proof.
  revert a. induction l as [|x l IH]; intros a; simpl; [lia|].
  specialize (IH (Z.max a x)). lia.
Qed.

Lemma fold_left_max_shift (l : list time_t) (a b : time_t) :
  fold_left Z.max l (Z.max a b) = Z.max a (fold_left Z.max l b).
Proof.
  revert b. induction l as [|x l IH]; intros b; simpl; [done|].
  by rewrite <- Z.max_assoc, IH.
Qed.

Lemma fold_right_max_shift (l : list time_t) (a b : time_t) :
  fold_right Z.max (Z.max a b) l = Z.max a (fold_right Z.max b l).
Proof. induction l as [|x l IH]; simpl; [done|]. rewrite IH. lia. Qed.

Lemma fold_left_max_maximum (l : list time_t) :
  fold_left Z.max l 0 = Z.max 0 (maximum_or_zero l).
Proof.
  destruct l as [|x l]; simpl; [done|].
  revert x. induction l as [|y l IH]; intros x; simpl; [done|].
  rewrite <- Z.max_assoc, IH, (Z.max_comm x y), fold_right_max_shift. done.
Qed.

Lemma fold_right_max_ge_init (l : list time_t) (b : time_t) :
  b <= fold_right Z.max b l.
Proof. induction l as [|x l IH]; simpl; lia. Qed.

Lemma fold_right_max_ge_elem (l : list time_t) (b x : time_t) :
  x ∈ l -> x <= fold_right Z.max b l.
Proof.
  induction l as [|y l IH]; simpl; [by intros ?%elem_of_nil|].
  intros [->|Hin]%elem_of_cons; [lia|]. specialize (IH Hin). lia.
Qed.

Lemma maximum_or_zero_ge (l : list time_t) (x : time_t) :
  x ∈ l -> x <= maximum_or_zero l.
Proof.
  destruct l as [|y l]; [by intros ?%elem_of_nil|]. simpl.
  intros [->|Hin]%elem_of_cons.
  - apply fold_right_max_ge_init.
  - by apply fold_right_max_ge_elem.
Qed.

Lemma maximum_or_zero_elem (l : list time_t) :
  l ≠ [] -> maximum_or_zero l ∈ l.
Proof.
  destruct l as [|y l]; [done|]. intros _. simpl.
  revert y. induction l as [|z l IH]; intros y; simpl.
  - apply list_elem_of_singleton. done.
  - destruct (Z.max_spec z (fold_right Z.max y l)) as [[_ ->]|[_ ->]].
    + specialize (IH y). apply elem_of_cons in IH as [->|IH].
      * apply elem_of_cons. by left.
      * apply elem_of_cons. right. apply elem_of_cons. by right.
    + apply elem_of_cons. right. apply elem_of_cons. by left.
Qed.

Lemma maximum_or_zero_nonneg (l : list time_t) :
  Forall (fun x => 0 <= x) l -> Z.max 0 (maximum_or_zero l) = maximum_or_zero l.
Proof.
  intros Hl. destruct l as [|y l]; [done|].
  pose proof (maximum_or_zero_ge (y :: l) y) as Hge.
  apply Forall_cons in Hl as [Hy _].
  specialize (Hge ltac:(apply elem_of_cons; by left)). lia.
Qed.

(** ** The first loop of [handleDependencies] *)

Lemma library_warnings_app (ds1 ds2 : list (@Diagnostic ModulePtr)) :
  library_warnings (ds1 ++ ds2) = library_warnings ds1 ++ library_warnings ds2.
Proof. apply omap_app. Qed.

Lemma library_warnings_printdb (d : @Diagnostic ModulePtr) w :
  (forall f, d ≠ LibraryWarning f) ->
  library_warnings (diag (printdb d w)) = library_warnings (diag w).
Proof.
  intros Hd. unfold printdb. destruct debug; [|done]. simpl.
  rewrite library_warnings_app. destruct d; simpl; try by rewrite app_nil_r.
  by destruct (Hd filename0).
Qed.

Lemma printdb_mcache (d : @Diagnostic ModulePtr) w :
  mcache (printdb d w) = mcache w.
Proof. unfold printdb. by destruct debug. Qed.

Lemma printdb_fonts (d : @Diagnostic ModulePtr) w :
  fonts (printdb d w) = fonts w.
Proof. unfold printdb. by destruct debug. Qed.

(** What one consultation does to the locals and to the world. *)
Lemma consult_cache_spec fs wasmissing key filename st :
  let c := mcache (dep_world st) in
  let r := evaluate fs c filename in
  let v := mkVisit key filename wasmissing (isCached c filename)
             (lookup c filename) r.2 in
  let out := consult_cache fs wasmissing filename st in
  out.1 = visit_thrown v /\
  mcache (dep_world out.2) = r.1 /\
  fonts (dep_world out.2) = fonts (dep_world st) /\
  updates out.2 = updates st /\
  latest out.2 = match visit_mtime v with
                 | Some mtime => Z.max (latest st) mtime
                 | None => latest st
                 end /\
  library_warnings (diag (dep_world out.2)) =
    library_warnings (diag (dep_world st)) ++
    (if visit_warns v then [filename] else []).
Proof.
  intros c r v out. subst out v. unfold consult_cache, visit_thrown,
    visit_mtime, visit_warns. fold c. fold r. simpl.
  destruct r as [cache' [newmodule mtime|e]]; simpl.
  - rewrite latest_step.
    set (w1 := if _ && bool_decide _ then printdb _ _ else printdb _ _).
    assert (mcache w1 = cache' /\ fonts w1 = fonts (dep_world st) /\
            library_warnings (diag w1) = library_warnings (diag (dep_world st)))
      as (Hc1 & Hf1 & Hw1).
    { subst w1. destruct (_ && _);
        by rewrite printdb_mcache, printdb_fonts, library_warnings_printdb. }
    destruct (is_null newmodule && negb (isCached c filename) && negb wasmissing);
      simpl; repeat split; try done.
    + by rewrite library_warnings_app, Hw1.
    + by rewrite Hw1, app_nil_r.
  - repeat split. by rewrite app_nil_r.
Qed.

Lemma dependency_body_spec fs this_path key (node : NodeRef) st :
  dependency_body fs this_path (key, node) st =
  match effective_key fs this_path key with
  | None => (None, st)
  | Some filename =>
      consult_cache fs (negb (is_absolute key)) filename
        (mkDepState (dep_world st) (updates st ++ rename_of fs this_path key)
           (latest st))
  end.
Proof.
  unfold dependency_body, effective_key, rename_of. simpl.
  destruct (is_absolute key); simpl.
  - rewrite app_nil_r. by destruct st.
  - by destruct (path_empty _).
Qed.

(** The first loop computes what the consultations of the pass say. *)
Lemma dependency_loop_spec fs this_path entries st :
  (dependency_loop fs this_path entries st).1 =
    thrown (visits fs this_path (mcache (dep_world st)) entries) /\
  mcache (dep_world (dependency_loop fs this_path entries st).2) =
    cache_after fs this_path (mcache (dep_world st)) entries /\
  fonts (dep_world (dependency_loop fs this_path entries st).2) =
    fonts (dep_world st) /\
  latest (dependency_loop fs this_path entries st).2 =
    fold_left Z.max
      (mtimes (visits fs this_path (mcache (dep_world st)) entries))
      (latest st) /\
  library_warnings (diag (dep_world (dependency_loop fs this_path entries st).2)) =
    library_warnings (diag (dep_world st)) ++
    (v_filename <$>
       List.filter visit_warns
         (visits fs this_path (mcache (dep_world st)) entries)) /\
  (thrown (visits fs this_path (mcache (dep_world st)) entries) = None ->
   updates (dependency_loop fs this_path entries st).2 =
     updates st ++ renames fs this_path entries).
Proof.
  revert st. induction entries as [|[key node] rest IH]; intros st.
  { simpl. repeat split; by rewrite ?app_nil_r. }
  cbn [dependency_loop visits cache_after renames flat_map fst].
  rewrite dependency_body_spec.
  destruct (effective_key fs this_path key) as [filename|] eqn:Heff.
  2:{ assert (rename_of fs this_path key = []) as ->; [|apply IH].
      revert Heff. unfold effective_key, rename_of.
      destruct (is_absolute key); [done|]. by destruct (path_empty _). }
  set (st0 := mkDepState _ _ _).
  pose proof (consult_cache_spec fs (negb (is_absolute key)) key filename st0)
    as (Hthrown & Hcache & Hfonts & Hupd & Hlatest & Hwarn).
  cbn [dep_world updates latest st0] in *.
  set (v := mkVisit _ _ _ _ _ _) in *.
  destruct (consult_cache _ _ _ _) as [o st']. cbn [fst snd] in *.
  destruct (evaluate fs (mcache (dep_world st)) filename) as [c' r].
  cbn [fst snd] in *. unfold thrown, mtimes in *.
  cbn [omap list_omap List.filter fmap list_fmap].
  destruct r as [newmodule mtime|e].
  - assert (visit_thrown v = None) as Hvt by done.
    assert (visit_mtime v = Some mtime) as Hvm by done.
    rewrite Hvt, Hvm in *. subst o.
    destruct (IH st') as (IH1 & IH2 & IH3 & IH4 & IH5 & IH6).
    rewrite Hcache in *. cbn [fold_left].
    rewrite IH1, IH2, IH3, IH4, IH5, Hlatest, Hwarn, Hfonts.
    repeat split; try done.
    + rewrite <- app_assoc. f_equal. by destruct (visit_warns v).
    + intros Hnone. by rewrite (IH6 Hnone), Hupd, <- app_assoc.
  - assert (visit_thrown v = Some e) as Hvt by done.
    assert (visit_mtime v = None) as Hvm by done.
    rewrite Hvt, Hvm in *. subst o.
    cbn [fst snd]. rewrite Hcache, Hfonts, Hlatest, Hwarn.
    repeat split; try done.
Qed.

(** ** The second loop of [handleDependencies] *)

Lemma dict_insert_lookup {V : Type} (key q : string) (value : V)
    (d : gmap string V) :
  dict_insert key value d !! q =
  match d !! q with
  | Some node => Some node
  | None => if decide (key = q) then Some value else None
  end.
Proof.
  unfold dict_insert. destruct (d !! key) as [old|] eqn:Hkey.
  - destruct (d !! q) eqn:Hq; [done|]. case_decide; [congruence|done].
  - case_decide as Heq.
    + subst q. by rewrite lookup_insert_eq, Hkey.
    + rewrite lookup_insert_ne by done. by destruct (d !! q).
Qed.

Lemma dict_insert_present {V : Type} (key : string) (value : V)
    (d : gmap string V) :
  is_Some (d !! key) -> dict_insert key value d = d.
Proof. intros [old Hold]. unfold dict_insert. by rewrite Hold. Qed.

Lemma claimed_by_ext (U : list (string * string)) dict dict' q :
  (forall k, k ∈ U.*1 -> dict' !! k = dict !! k) ->
  claimed_by U dict' q = claimed_by U dict q.
Proof.
  induction U as [|[k p] U IH]; intros Hext; simpl; [done|].
  case_decide.
  - apply Hext. simpl. apply elem_of_cons. by left.
  - apply IH. intros k' Hk'. apply Hext. simpl. apply elem_of_cons. by right.
Qed.

Lemma claimed_by_None (U : list (string * string)) dict q :
  q ∉ U.*2 -> claimed_by U dict q = None.
Proof.
  induction U as [|[k p] U IH]; simpl; [done|].
  intros Hq. apply not_elem_of_cons in Hq as [Hne Hq].
  case_decide; [congruence|]. by apply IH.
Qed.

(** When the renamed keys are distinct keys of the dictionary, [at] does
    not throw. *)
Lemma apply_updates_completes (U : list (string * string)) dict :
  NoDup U.*1 ->
  (forall k, k ∈ U.*1 -> is_Some (dict !! k)) ->
  (apply_updates U dict).1 = None.
Proof.
  revert dict. induction U as [|[k p] U IH]; intros dict Hnd Hdom; [done|].
  simpl in *. apply NoDup_cons in Hnd as [Hk Hnd].
  destruct (Hdom k) as [node Hnode]; [apply elem_of_cons; by left|].
  rewrite Hnode. apply IH; [done|].
  intros k' Hk'. assert (k ≠ k') by (intros ->; done).
  rewrite lookup_delete_ne by done. rewrite dict_insert_lookup.
  destruct (Hdom k') as [node' ->]; [apply elem_of_cons; by right|]. eauto.
Qed.

(** When moreover no target of a rename is itself a renamed key, the
    dictionary after the loop is [renamed_lookup]. *)
Lemma apply_updates_lookup (U : list (string * string)) dict q :
  NoDup U.*1 ->
  (forall k, k ∈ U.*1 -> is_Some (dict !! k)) ->
  (forall p, p ∈ U.*2 -> p ∉ U.*1) ->
  (apply_updates U dict).2 !! q = renamed_lookup U dict q.
Proof.
  revert dict. induction U as [|[k p] U IH]; intros dict Hnd Hdom Htgt.
  { unfold renamed_lookup. cbn [apply_updates claimed_by snd].
    case_decide as Hin; [by apply elem_of_nil in Hin|]. by destruct (dict !! q). }
  simpl in *. apply NoDup_cons in Hnd as [Hk Hnd].
  destruct (Hdom k) as [node Hnode]; [apply elem_of_cons; by left|].
  rewrite Hnode.
  set (dict1 := delete k (dict_insert p node dict)).
  assert (forall k', k' ∈ U.*1 -> dict1 !! k' = dict !! k') as Hkeep.
  { intros k' Hk'. assert (k ≠ k') by (intros ->; done). subst dict1.
    rewrite lookup_delete_ne by done. rewrite dict_insert_lookup.
    destruct (Hdom k') as [node' ->]; [apply elem_of_cons; by right|]. done. }
  rewrite IH; [|done| |].
  2:{ intros k' Hk'. rewrite Hkeep by done. apply Hdom, elem_of_cons. by right. }
  2:{ intros p' Hp' Hin. apply (Htgt p'); apply elem_of_cons; by right. }
  unfold renamed_lookup. cbn [fmap list_fmap fst snd claimed_by].
  destruct (decide (q = k)) as [->|Hqk].
  - rewrite (decide_True (P := k ∈ k :: U.*1)) by (apply elem_of_cons; by left).
    rewrite (decide_False (P := k ∈ U.*1)) by done.
    subst dict1. rewrite lookup_delete_eq.
    apply claimed_by_None. intros Hin.
    apply (Htgt k); apply elem_of_cons; [by right|by left].
  - destruct (decide (q ∈ U.*1)) as [HqU|HqU].
    { rewrite (decide_True (P := q ∈ k :: U.*1))
        by (apply elem_of_cons; by right). done. }
    rewrite (decide_False (P := q ∈ k :: U.*1))
      by (intros [?|?]%elem_of_cons; done).
    subst dict1. rewrite lookup_delete_ne by done. rewrite dict_insert_lookup.
    destruct (dict !! q) as [nq|] eqn:Hq; [done|].
    case_decide as Hpq; [by rewrite Hnode|].
    apply claimed_by_ext. intros k' Hk'. by apply Hkeep.
Qed.

(** ** The entries a pass visits *)

Lemma dict_order_NoDup dict : NoDup (dict_order dict).*1.
Proof.
  rewrite dict_order_entries. apply NoDup_fst_map_to_list.
Qed.

Lemma dict_order_lookup dict key (node : NodeRef) :
  (key, node) ∈ dict_order dict <-> dict !! key = Some node.
Proof. rewrite dict_order_entries. apply elem_of_map_to_list. Qed.

Lemma dict_order_keys dict key :
  key ∈ (dict_order dict).*1 <-> is_Some (dict !! key).
Proof.
  rewrite list_elem_of_fmap. split.
  - intros ([k n] & -> & Hin). apply dict_order_lookup in Hin. eauto.
  - intros [n Hn]. exists (key, n). split; [done|]. by apply dict_order_lookup.
Qed.

Lemma dict_order_empty : dict_order (∅ : gmap string NodeRef) = [].
Proof.
  apply Permutation_nil_r. rewrite dict_order_entries.
  by rewrite map_to_list_empty.
Qed.

Lemma elem_of_rename_of fs this_path key k p :
  (k, p) ∈ rename_of fs this_path key <->
  k = key /\ is_absolute key = false /\
  p = find_valid_path fs this_path key /\ path_empty p = false.
Proof.
  unfold rename_of. destruct (is_absolute key).
  { split; [by intros ?%elem_of_nil|]. by intros (_ & ? & _). }
  simpl. destruct (path_empty (find_valid_path fs this_path key)) eqn:Hempty.
  { split; [by intros ?%elem_of_nil|]. intros (_ & _ & -> & ?). congruence. }
  rewrite list_elem_of_singleton. split.
  - intros [= -> ->]. done.
  - intros (-> & _ & -> & _). done.
Qed.

Lemma elem_of_renames fs this_path entries k p :
  (k, p) ∈ renames fs this_path entries <->
  k ∈ entries.*1 /\ is_absolute k = false /\
  p = find_valid_path fs this_path k /\ path_empty p = false.
Proof.
  unfold renames. rewrite list_elem_of_In, in_flat_map. split.
  - intros ([k' n'] & Hin & Hren). apply list_elem_of_In in Hin, Hren.
    apply elem_of_rename_of in Hren as (-> & ? & ? & ?). simpl in *.
    split; [|done]. apply list_elem_of_fmap. by exists (k', n').
  - intros (Hin & ? & ? & ?). apply list_elem_of_fmap in Hin as ([k' n'] & -> & Hin).
    exists (k', n'). split; [by apply list_elem_of_In|].
    apply list_elem_of_In, elem_of_rename_of. done.
Qed.

Lemma renames_NoDup fs this_path entries :
  NoDup entries.*1 -> NoDup (renames fs this_path entries).*1.
Proof.
  induction entries as [|[k n] entries IH]; simpl; [constructor|].
  intros [Hk Hnd]%NoDup_cons. rewrite fmap_app. apply NoDup_app.
  split; [|split; [|by apply IH]].
  - unfold rename_of. destruct (is_absolute k); [constructor|]. simpl.
    destruct (path_empty _); [constructor|]. apply NoDup_singleton.
  - intros k' Hk' Hin. apply list_elem_of_fmap in Hk' as ([k1 p1] & -> & Hk1).
    apply elem_of_rename_of in Hk1 as (-> & _). simpl in *.
    apply list_elem_of_fmap in Hin as ([k2 p2] & -> & Hk2).
    apply elem_of_renames in Hk2 as (? & _). done.
Qed.

(** ** A pass of [handleDependencies] *)

Lemma renames_in_dict fs this_path dict k :
  k ∈ (renames fs this_path (dict_order dict)).*1 -> is_Some (dict !! k).
Proof.
  intros ([k' p] & -> & Hin)%list_elem_of_fmap.
  apply elem_of_renames in Hin as (Hin & _). by apply dict_order_keys.
Qed.

(** A pass that starts with the guard down, in terms of its
    consultations: how it ends, and what it leaves in the object and in
    the world. *)
Lemma handleDependencies_pass fs this w :
  is_handling_dependencies this = false ->
  let vs := visits fs (path this) (mcache w) (dict_order (externalDict this)) in
  let r := handleDependencies fs this w in
  result r =
    match thrown vs with
    | Some e => Raised e
    | None => Returned (fold_left Z.max (mtimes vs) 0)
    end /\
  self r =
    match thrown vs with
    | Some e => with_handling true this
    | None =>
        with_handling false
          (with_externalDict
             (apply_updates (renames fs (path this) (dict_order (externalDict this)))
                (externalDict this)).2
             (with_handling true this))
    end /\
  mcache (world r) =
    cache_after fs (path this) (mcache w) (dict_order (externalDict this)) /\
  fonts (world r) = fonts w /\
  library_warnings (diag (world r)) =
    library_warnings (diag w) ++ (v_filename <$> List.filter visit_warns vs).
Proof.
  intros Hguard vs r. subst r. unfold handleDependencies. rewrite Hguard.
  cbn [with_handling path externalDict].
  pose proof (dependency_loop_spec fs (path this) (dict_order (externalDict this))
                (mkDepState w [] 0)) as (Hthrown & Hcache & Hfonts & Hlatest & Hwarn & Hupd).
  cbn [dep_world updates latest] in *. fold vs in Hthrown, Hlatest, Hwarn, Hupd.
  destruct (dependency_loop _ _ _ _) as [o st]. cbn [fst snd] in *. subst o.
  destruct (thrown vs) as [e|]; cbn [result self world]; [done|].
  rewrite (Hupd eq_refl). cbn [app].
  pose proof (apply_updates_completes
                (renames fs (path this) (dict_order (externalDict this)))
                (externalDict this)) as Hok.
  destruct (apply_updates _ _) as [o dict']. cbn [fst snd] in *.
  rewrite Hok; [by rewrite Hlatest|..].
  - apply renames_NoDup, dict_order_NoDup.
  - apply renames_in_dict.
Qed.

Lemma thrown_cons (v : @Visit ModulePtr) vs :
  thrown (v :: vs) =
  match visit_thrown v with
  | Some e => Some e
  | None => thrown vs
  end.
Proof. unfold thrown. simpl. by destruct (visit_thrown v). Qed.

(** Without an exception, the pass consults the cache once for each entry
    that has an effective key, in the order of the entries. *)
Lemma visits_keys fs this_path (c : ModuleCache) entries :
  thrown (visits fs this_path c entries) = None ->
  v_key <$> visits fs this_path c entries =
  filter (fun key => is_Some (effective_key fs this_path key)) entries.*1.
Proof.
  revert c. induction entries as [|[key node] rest IH]; intros c; [done|].
  cbn [visits fmap list_fmap fst]. rewrite filter_cons.
  destruct (effective_key fs this_path key) as [filename|] eqn:Heff.
  - rewrite decide_True by eauto. rewrite thrown_cons. unfold visit_thrown.
    cbn [v_result fmap list_fmap v_key].
    destruct (evaluate fs c filename) as [c' [nm mt|e]]; cbn [fst snd]; [|done].
    intros Hnone. f_equal. by apply IH.
  - rewrite decide_False by (by intros [? ?]). apply IH.
Qed.

(** Each consultation is made for an entry, under its effective key. *)
Lemma visits_filename fs this_path (c : ModuleCache) entries :
  Forall
    (fun v => v_key v ∈ entries.*1 /\
              effective_key fs this_path (v_key v) = Some (v_filename v) /\
              v_wasmissing v = negb (is_absolute (v_key v)))
    (visits fs this_path c entries).
Proof.
  revert c. induction entries as [|[key node] rest IH]; intros c; [constructor|].
  assert (forall c', Forall
    (fun v => v_key v ∈ ((key, node) :: rest).*1 /\
              effective_key fs this_path (v_key v) = Some (v_filename v) /\
              v_wasmissing v = negb (is_absolute (v_key v)))
    (visits fs this_path c' rest)) as IH'.
  { intros c'. eapply Forall_impl; [apply IH|]. intros v (? & ? & ?).
    split; [|done]. apply elem_of_cons. by right. }
  cbn [visits]. destruct (effective_key fs this_path key) as [filename|] eqn:Heff;
    [|apply IH'].
  constructor.
  { split; [|done]. apply elem_of_cons. by left. }
  destruct ((evaluate fs c filename).2); [apply IH'|constructor].
Qed.

(** Entries without an effective key play no part in the consultations. *)
Lemma visits_unresolved fs this_path (c : ModuleCache) entries :
  visits fs this_path c entries =
  visits fs this_path c
    (filter (fun e => is_Some (effective_key fs this_path e.1)) entries).
Proof.
  revert c. induction entries as [|[key node] rest IH]; intros c; [done|].
  rewrite filter_cons. cbn [fst visits].
  destruct (effective_key fs this_path key) as [filename|] eqn:Heff.
  - rewrite decide_True by eauto. cbn [visits]. rewrite Heff.
    f_equal. destruct ((evaluate fs c filename).2); [apply IH|done].
  - rewrite decide_False by (by intros [? ?]). apply IH.
Qed.

Lemma handleDependencies_guarded fs this w :
  is_handling_dependencies this = true ->
  handleDependencies fs this w = mkRun (Returned 0) this w.
Proof. intros Hguard. unfold handleDependencies. by rewrite Hguard. Qed.

(** ** The claims about [handleDependencies] *)

(** C4. When the reentrancy guard of a [FileModule] is already set,
    [handleDependencies] returns 0 at once and leaves the object (its
    dictionary and its guard among the rest) and the world (the module
    cache, the font registrations and the messages printed) as they
    were. *)
Theorem handleDependencies_reentrant fs this w :
  is_handling_dependencies this = true ->
  handleDependencies fs this w = mkRun (Returned 0) this w.
Proof. apply handleDependencies_guarded. Qed.

(** C1, as amended.  With the guard down, a pass in which no call of
    [evaluate] throws returns the larger of 0 and the greatest time that
    [evaluate] returned; [evaluate] is called exactly for the entries that
    have an effective key, under that key.  So the pass returns the
    greatest of these times when none of them is negative, and 0 when the
    dictionary is empty.  Entries whose relative key is not found are not
    part of the consultations at all. *)
Theorem handleDependencies_latest fs this w :
  is_handling_dependencies this = false ->
  let entries := dict_order (externalDict this) in
  let vs := visits fs (path this) (mcache w) entries in
  let r := handleDependencies fs this w in
  result r =
    match thrown vs with
    | Some e => Raised e
    | None => Returned (Z.max 0 (maximum_or_zero (mtimes vs)))
    end /\
  entries ≡ₚ map_to_list (externalDict this) /\
  (thrown vs = None ->
   v_key <$> vs =
   filter (fun key => is_Some (effective_key fs (path this) key)) entries.*1) /\
  Forall (fun v => effective_key fs (path this) (v_key v) = Some (v_filename v))
    vs /\
  (thrown vs = None -> Forall (fun mtime => 0 <= mtime) (mtimes vs) ->
   result r = Returned (maximum_or_zero (mtimes vs))) /\
  (externalDict this = ∅ -> result r = Returned 0) /\
  vs =
    visits fs (path this) (mcache w)
      (filter (fun e => is_Some (effective_key fs (path this) e.1)) entries).
Proof.
  intros Hguard entries vs r.
  destruct (handleDependencies_pass fs this w Hguard) as (Hres & _).
  fold entries vs r in Hres. rewrite fold_left_max_maximum in Hres.
  split; [done|]. split; [apply dict_order_entries|].
  split; [apply visits_keys|]. split.
  { eapply Forall_impl; [apply visits_filename|]. by intros v (_ & ? & _). }
  split.
  { intros Hnone Hpos. rewrite Hres, Hnone. f_equal.
    by apply maximum_or_zero_nonneg. }
  split; [|apply visits_unresolved].
  intros Hempty. rewrite Hres. subst vs entries.
  rewrite Hempty, dict_order_empty. done.
Qed.

(** C10.  With the guard down, a pass in which a call of [evaluate]
    throws lets the exception through with the guard still set and the
    dictionary as it was, and from then on every call of
    [handleDependencies] on the object returns 0 and changes nothing.
    The guard is down after a pass exactly when the pass returned. *)
Theorem handleDependencies_exception_keeps_guard fs this w :
  is_handling_dependencies this = false ->
  let vs := visits fs (path this) (mcache w) (dict_order (externalDict this)) in
  let r := handleDependencies fs this w in
  (forall e, thrown vs = Some e ->
     result r = Raised e /\
     is_handling_dependencies (self r) = true /\
     externalDict (self r) = externalDict this /\
     forall fs' w',
       handleDependencies fs' (self r) w' = mkRun (Returned 0) (self r) w') /\
  (is_handling_dependencies (self r) = false <->
   exists mtime, result r = Returned mtime).
Proof.
  intros Hguard vs r.
  destruct (handleDependencies_pass fs this w Hguard) as (Hres & Hself & _).
  fold vs r in Hres, Hself. split.
  - intros e He. rewrite He in Hres, Hself. rewrite Hres, Hself.
    split; [done|]. split; [done|]. split; [done|].
    intros fs' w'. by apply handleDependencies_guarded.
  - rewrite Hres, Hself. destruct (thrown vs) as [e|]; cbn.
    + split; [done|]. by intros [? ?].
    + split; [eauto|done].
Qed.

(** ** Warnings over two passes *)

Lemma visit_warns_iff (v : @Visit ModulePtr) :
  visit_warns v = true <->
  (exists mtime, v_result v = EvalReturns None mtime) /\
  v_wascached v = false /\ v_wasmissing v = false.
Proof.
  unfold visit_warns. destruct (v_result v) as [[m|] mtime|e]; simpl.
  - split; [done|]. by intros [[? ?] _].
  - destruct (v_wascached v), (v_wasmissing v); simpl; split; try done;
      try by intros (_ & ? & ?). eauto.
  - split; [done|]. by intros [[? ?] _].
Qed.


(** A property of the cache that [evaluate] preserves holds at every
    consultation of a pass and after it. *)
Lemma visits_invariant (P : ModuleCache -> Prop) fs this_path c entries :
  P c ->
  (forall c' f, P c' -> P (evaluate fs c' f).1) ->
  Forall
    (fun v => exists c', P c' /\ v_wascached v = isCached c' (v_filename v))
    (visits fs this_path c entries) /\
  P (cache_after fs this_path c entries).
Proof.
  intros Hc Hstep. revert c Hc.
  induction entries as [|[key node] rest IH]; intros c Hc; [by split|].
  cbn [visits cache_after].
  destruct (effective_key fs this_path key) as [filename|]; [|by apply IH].
  pose proof (Hstep c filename Hc) as Hc'.
  destruct (evaluate fs c filename) as [c' [nm mt|e]]; cbn [fst snd] in *.
  - destruct (IH c' Hc') as [IH1 IH2]. split; [|done].
    constructor; [|done]. by exists c.
  - split; [|done]. constructor; [|constructor]. by exists c.
Qed.




Lemma count_library_warnings_app (k : string)
    (ds1 ds2 : list (@Diagnostic ModulePtr)) :
  count_library_warnings k (ds1 ++ ds2) =
  (count_library_warnings k ds1 + count_library_warnings k ds2)%nat.
Proof.
  unfold count_library_warnings. by rewrite library_warnings_app, count_occ_app.
Qed.


(** Without an exception, an entry that has an effective key is
    consulted under it. *)
Lemma visits_reach fs this_path (c : ModuleCache) entries key filename :
  thrown (visits fs this_path c entries) = None ->
  key ∈ entries.*1 ->
  effective_key fs this_path key = Some filename ->
  exists v, v ∈ visits fs this_path c entries /\
            v_key v = key /\ v_filename v = filename.
Proof.
  intros Hnone Hin Heff.
  assert (key ∈ v_key <$> visits fs this_path c entries) as Hkey.
  { rewrite visits_keys by done. apply list_elem_of_filter. split; [eauto|done]. }
  apply list_elem_of_fmap in Hkey as (v & -> & Hv). exists v.
  split; [done|]. split; [done|].
  pose proof (visits_filename fs this_path c entries) as Hall.
  rewrite Forall_forall in Hall. destruct (Hall v Hv) as (_ & Hv' & _).
  congruence.
Qed.

Lemma returned_not_thrown {A : Type} (o : option Exn) (x mtime : A) :
  match o with
  | Some e => Raised e
  | None => Returned x
  end = Returned mtime -> o = None.
Proof. by destruct o. Qed.


(** ** Key promotion *)

Lemma claimed_by_unique (U : list (string * string)) dict k p :
  (k, p) ∈ U ->
  (forall k', (k', p) ∈ U -> k' = k) ->
  claimed_by U dict p = dict !! k.
Proof.
  induction U as [|[k1 p1] U IH]; [by intros ?%elem_of_nil|].
  intros Hin Huniq. cbn [claimed_by fst snd]. case_decide as Heq.
  - subst p1. f_equal. apply Huniq, elem_of_cons. by left.
  - apply elem_of_cons in Hin as [[= -> ->]|Hin]; [done|].
    apply IH; [done|]. intros k' Hk'. apply Huniq, elem_of_cons. by right.
Qed.

Lemma claimed_by_is_Some (U : list (string * string)) dict p :
  p ∈ U.*2 ->
  (forall k, k ∈ U.*1 -> is_Some (dict !! k)) ->
  is_Some (claimed_by U dict p).
Proof.
  induction U as [|[k1 p1] U IH]; [by intros ?%elem_of_nil|].
  intros Hin Hdom. cbn [claimed_by fst snd]. case_decide as Heq.
  - apply Hdom. apply elem_of_cons. by left.
  - apply elem_of_cons in Hin as [?|Hin]; [done|]. apply IH; [done|].
    intros k' Hk'. apply Hdom, elem_of_cons. by right.
Qed.

(** The dictionary after a pass that returns, when what the search finds
    is an absolute path. *)
Lemma pass_dictionary fs this w q :
  is_handling_dependencies this = false ->
  (forall key, is_absolute key = false ->
     path_empty (find_valid_path fs (path this) key) = false ->
     is_absolute (find_valid_path fs (path this) key) = true) ->
  (exists mtime, result (handleDependencies fs this w) = Returned mtime) ->
  externalDict (self (handleDependencies fs this w)) !! q =
  renamed_lookup (renames fs (path this) (dict_order (externalDict this)))
    (externalDict this) q.
Proof.
  intros Hguard Habs [mtime Hret].
  destruct (handleDependencies_pass fs this w Hguard) as (Hres & Hself & _).
  cbn zeta in Hres, Hself. rewrite Hres in Hret.
  apply returned_not_thrown in Hret. rewrite Hret in Hself. rewrite Hself.
  cbn [externalDict with_handling with_externalDict].
  apply apply_updates_lookup.
  - apply renames_NoDup, dict_order_NoDup.
  - apply renames_in_dict.
  - intros p ([k1 p1] & -> & Hin1)%list_elem_of_fmap
             ([k2 p2] & Heq & Hin2)%list_elem_of_fmap.
    cbn [fst snd] in *. subst p1.
    apply elem_of_renames in Hin1 as (_ & Hrel1 & -> & Hne1).
    apply elem_of_renames in Hin2 as (_ & Hrel2 & _).
    rewrite (Habs k1 Hrel1 Hne1) in Hrel2. done.
Qed.

(** What a pass that returns does to one entry of the dictionary. *)
Lemma pass_entry fs this w key (node : NodeRef) :
  is_handling_dependencies this = false ->
  (forall key, is_absolute key = false ->
     path_empty (find_valid_path fs (path this) key) = false ->
     is_absolute (find_valid_path fs (path this) key) = true) ->
  (exists mtime, result (handleDependencies fs this w) = Returned mtime) ->
  externalDict this !! key = Some node ->
  let dict := externalDict this in
  let dict' := externalDict (self (handleDependencies fs this w)) in
  let fullpath := find_valid_path fs (path this) key in
  (is_absolute key = true -> dict' !! key = Some node) /\
  (is_absolute key = false -> path_empty fullpath = true ->
   dict' !! key = Some node) /\
  (is_absolute key = false -> path_empty fullpath = false ->
   dict' !! key = None /\
   is_Some (dict' !! fullpath) /\
   (exists v,
      v ∈ visits fs (path this) (mcache w) (dict_order dict) /\
      v_key v = key /\ v_filename v = fullpath) /\
   (forall node', dict !! fullpath = Some node' ->
      dict' !! fullpath = Some node') /\
   (dict !! fullpath = None ->
    (forall key', is_Some (dict !! key') -> is_absolute key' = false ->
       find_valid_path fs (path this) key' = fullpath -> key' = key) ->
    dict' !! fullpath = Some node)).
Proof.
  intros Hguard Habs Hret Hnode dict dict' fullpath.
  change (dict !! key = Some node) in Hnode.
  assert (forall q, dict' !! q =
            renamed_lookup (renames fs (path this) (dict_order dict)) dict q)
    as Hdict by (intros q; by apply pass_dictionary).
  set (U := renames fs (path this) (dict_order dict)) in *.
  assert (forall k, k ∈ U.*1 <->
            is_Some (dict !! k) /\ is_absolute k = false /\
            path_empty (find_valid_path fs (path this) k) = false) as Hsrc.
  { intros k. rewrite list_elem_of_fmap. split.
    - intros ([k1 p1] & -> & Hin). apply elem_of_renames in Hin
        as (Hin & ? & -> & ?). by rewrite <- dict_order_keys.
    - intros (Hin & ? & ?). exists (k, find_valid_path fs (path this) k).
      split; [done|]. apply elem_of_renames. by rewrite dict_order_keys. }
  split; [|split].
  - intros Hkabs. rewrite Hdict. unfold renamed_lookup.
    rewrite decide_False; [by rewrite Hnode|].
    intros (_ & Hx & _)%Hsrc. congruence.
  - intros Hrel Hempty. rewrite Hdict. unfold renamed_lookup.
    rewrite decide_False; [by rewrite Hnode|].
    intros (_ & _ & Hx)%Hsrc. fold fullpath in Hx. congruence.
  - intros Hrel Hfound.
    assert (key ∈ U.*1) as HkeyU by (apply Hsrc; eauto).
    assert ((key, fullpath) ∈ U) as Hpair.
    { apply elem_of_renames. rewrite dict_order_keys. eauto. }
    assert (fullpath ∉ U.*1) as HpU.
    { intros (_ & Hx & _)%Hsrc. pose proof (Habs key Hrel Hfound) as Hy.
      fold fullpath in Hy. congruence. }
    assert (forall k, k ∈ U.*1 -> is_Some (dict !! k)) as Hdom
      by (intros k Hk; by apply Hsrc in Hk as (? & _)).
    split; [|split; [|split; [|split]]].
    + rewrite Hdict. unfold renamed_lookup. by rewrite decide_True.
    + rewrite Hdict. unfold renamed_lookup. rewrite decide_False by done.
      destruct (dict !! fullpath); [eauto|].
      apply claimed_by_is_Some; [|done]. apply list_elem_of_fmap.
      by exists (key, fullpath).
    + destruct Hret as [mtime Hret].
      destruct (handleDependencies_pass fs this w Hguard) as (Hres & _).
      cbn zeta in Hres. rewrite Hres in Hret.
      apply returned_not_thrown in Hret.
      apply visits_reach; [done|apply dict_order_keys; eauto|].
      unfold effective_key. rewrite Hrel. fold fullpath. by rewrite Hfound.
    + intros node' Hnode'. rewrite Hdict. unfold renamed_lookup.
      rewrite decide_False by done. by rewrite Hnode'.
    + intros Hfree Huniq. rewrite Hdict. unfold renamed_lookup.
      rewrite decide_False by done. rewrite Hfree.
      rewrite <- Hnode. apply claimed_by_unique; [done|].
      intros k' Hk'. apply elem_of_renames in Hk' as (Hin & ? & ? & ?).
      apply Huniq; [by apply dict_order_keys|done|done].
Qed.

(** C3, as amended.  Take a pass that returns, with the guard down and a
    search that finds absolute paths; the dictionary after it is
    [renamed_lookup].  An entry with an absolute key keeps it, and so
    does an entry whose relative key is not found.  An entry whose
    relative key is found loses that key, the path found is a key
    afterwards, and [evaluate] was called on it; the path carries the
    node of the entry when the path was not a key before and no other
    relative key was found at the same place, and keeps the node it had
    when it was a key already.  So an entry whose file appears between
    two passes keeps its relative key in the first and is promoted and
    compiled in the second. *)
Theorem handleDependencies_promotes_keys fs this w :
  is_handling_dependencies this = false ->
  (forall key, is_absolute key = false ->
     path_empty (find_valid_path fs (path this) key) = false ->
     is_absolute (find_valid_path fs (path this) key) = true) ->
  let r1 := handleDependencies fs this w in
  (exists mtime, result r1 = Returned mtime) ->
  let dict := externalDict this in
  let dict1 := externalDict (self r1) in
  (forall q,
     dict1 !! q = renamed_lookup (renames fs (path this) (dict_order dict)) dict q) /\
  forall key node, dict !! key = Some node ->
    let fullpath := find_valid_path fs (path this) key in
    (is_absolute key = true -> dict1 !! key = Some node) /\
    (is_absolute key = false -> path_empty fullpath = true ->
     dict1 !! key = Some node /\
     forall fs2 w2,
       let r2 := handleDependencies fs2 (self r1) w2 in
       let dict2 := externalDict (self r2) in
       let fullpath2 := find_valid_path fs2 (path this) key in
       path_empty fullpath2 = false ->
       (forall key, is_absolute key = false ->
          path_empty (find_valid_path fs2 (path this) key) = false ->
          is_absolute (find_valid_path fs2 (path this) key) = true) ->
       (exists mtime, result r2 = Returned mtime) ->
       dict2 !! key = None /\
       is_Some (dict2 !! fullpath2) /\
       (exists v,
          v ∈ visits fs2 (path this) (mcache w2) (dict_order dict1) /\
          v_key v = key /\ v_filename v = fullpath2) /\
       (dict1 !! fullpath2 = None ->
        (forall key', is_Some (dict1 !! key') -> is_absolute key' = false ->
           find_valid_path fs2 (path this) key' = fullpath2 -> key' = key) ->
        dict2 !! fullpath2 = Some node)) /\
    (is_absolute key = false -> path_empty fullpath = false ->
     dict1 !! key = None /\
     is_Some (dict1 !! fullpath) /\
     (exists v,
        v ∈ visits fs (path this) (mcache w) (dict_order dict) /\
        v_key v = key /\ v_filename v = fullpath) /\
     (forall node', dict !! fullpath = Some node' ->
        dict1 !! fullpath = Some node') /\
     (dict !! fullpath = None ->
      (forall key', is_Some (dict !! key') -> is_absolute key' = false ->
         find_valid_path fs (path this) key' = fullpath -> key' = key) ->
      dict1 !! fullpath = Some node)).
Proof.
  intros Hguard Habs r1 Hret dict dict1.
  split; [intros q; by apply pass_dictionary|].
  intros key node Hnode fullpath.
  destruct (pass_entry fs this w key node Hguard Habs Hret Hnode)
    as (Hkeep & Hmiss & Hfound).
  split; [done|]. split; [|done].
  intros Hrel Hempty. split; [by apply Hmiss|].
  intros fs2 w2 r2 dict2 fullpath2 Hfound2 Habs2 Hret2.
  destruct (handleDependencies_pass fs this w Hguard) as (Hres & Hself & _).
  cbn zeta in Hres, Hself. fold r1 in Hres, Hself.
  destruct Hret as [mtime Hret]. rewrite Hres in Hret.
  apply returned_not_thrown in Hret. rewrite Hret in Hself.
  assert (is_handling_dependencies (self r1) = false) as Hguard1
    by (by rewrite Hself).
  assert (path (self r1) = path this) as Hpath by (by rewrite Hself).
  rewrite <- Hpath in Habs2.
  destruct (pass_entry fs2 (self r1) w2 key node Hguard1 Habs2 Hret2
              (Hmiss Hrel Hempty)) as (_ & _ & Hfound1).
  rewrite Hpath in Hfound1.
  destruct (Hfound1 Hrel Hfound2) as (H1 & H2 & H3 & _ & H5). done.
Qed.

(** ** Resolution of the [use] references *)

Lemma resolveUseNodes_loop_spec fs this_path i nodes dict w :
  let out := resolveUseNodes_loop fs this_path i nodes (dict, w) in
  (forall q, out.1 !! q = resolved_lookup nodes i dict q) /\
  mcache out.2 = mcache w /\
  fonts out.2 =
    fonts w ++
    List.filter (fun f => is_font_file f && is_regular fs f) (use_filenames nodes) /\
  diag out.2 =
    diag w ++
    (FontError <$>
       List.filter (fun f => is_font_file f && negb (is_regular fs f))
         (use_filenames nodes)).
Proof.
  revert i dict w. induction nodes as [|n nodes IH]; intros i dict w.
  { cbn. unfold resolved_lookup. cbn. rewrite !app_nil_r.
    split; [|done]. intros q. destruct (dict !! q); [done|].
    by destruct (is_font_file q). }
  cbn [resolveUseNodes_loop]. destruct n as [f|f].
  - unfold resolveUseNodes_body. cbn [fst snd use_filenames omap list_omap List.filter].
    destruct (is_font_file f) eqn:Hfont; cbn [andb].
    + destruct (is_regular fs f) eqn:Hreg; cbn [negb];
        destruct (IH (S i) dict
                    (if is_regular fs f then register_font_file f w
                     else report (FontError f) w))
          as (IH1 & IH2 & IH3 & IH4); rewrite Hreg in *;
        (split; [|split; [done|split]]).
      * intros q. rewrite IH1. unfold resolved_lookup. cbn [first_use].
        destruct (dict !! q); [done|]. destruct (is_font_file q) eqn:Hq; [done|].
        case_decide; [congruence|done].
      * rewrite IH3. cbn. by rewrite <- app_assoc.
      * by rewrite IH4.
      * intros q. rewrite IH1. unfold resolved_lookup. cbn [first_use].
        destruct (dict !! q); [done|]. destruct (is_font_file q) eqn:Hq; [done|].
        case_decide; [congruence|done].
      * by rewrite IH3.
      * rewrite IH4. cbn. by rewrite <- app_assoc.
    + destruct (IH (S i) (dict_insert f i dict) w) as (IH1 & IH2 & IH3 & IH4).
      split; [|done]. intros q. rewrite IH1. unfold resolved_lookup.
      cbn [first_use]. rewrite dict_insert_lookup.
      destruct (dict !! q); [done|]. case_decide as Heq; [|done].
      subst q. by rewrite Hfont.
  - destruct (IH (S i) dict w) as (IH1 & IH2 & IH3 & IH4). cbn.
    split; [|done]. intros q. by rewrite IH1.
Qed.

Lemma first_use_bounds i nodes q (node : NodeRef) :
  first_use i nodes q = Some node ->
  (i <= node)%nat /\ nodes !! (node - i)%nat = Some (UseNode q) /\
  forall j, (j < node - i)%nat -> nodes !! j ≠ Some (UseNode q).
Proof.
  revert i. induction nodes as [|n nodes IH]; intros i; [done|].
  cbn [first_use]. destruct n as [f|f].
  - case_decide as Heq.
    + intros [= <-]. subst f. rewrite Nat.sub_diag. split; [lia|]. split; [done|].
      intros j Hj. lia.
    + intros Hfirst. destruct (IH _ Hfirst) as (Hle & Hat & Hbefore).
      split; [lia|]. replace (node - i)%nat with (S (node - S i)) by lia.
      split; [done|]. intros [|j] Hj; [cbn; congruence|]. cbn.
      apply Hbefore. lia.
  - intros Hfirst. destruct (IH _ Hfirst) as (Hle & Hat & Hbefore).
    split; [lia|]. replace (node - i)%nat with (S (node - S i)) by lia.
    split; [done|]. intros [|j] Hj; [done|]. cbn. apply Hbefore. lia.
Qed.

Lemma first_use_is_Some i nodes q :
  UseNode q ∈ nodes -> is_Some (first_use i nodes q).
Proof.
  revert i. induction nodes as [|n nodes IH]; intros i; [by intros ?%elem_of_nil|].
  intros Hin. cbn [first_use]. destruct n as [f|f].
  - case_decide; [eauto|]. apply IH.
    apply elem_of_cons in Hin as [[= ->]|Hin]; done.
  - apply IH. apply elem_of_cons in Hin as [?|Hin]; done.
Qed.

Lemma first_use_first i nodes q (j : nat) :
  nodes !! j = Some (UseNode q) ->
  (forall j', (j' < j)%nat -> nodes !! j' ≠ Some (UseNode q)) ->
  first_use i nodes q = Some (i + j)%nat.
Proof.
  intros Hj Hbefore.
  destruct (first_use_is_Some i nodes q) as [node Hnode].
  { by eapply list_elem_of_lookup_2. }
  destruct (first_use_bounds _ _ _ _ Hnode) as (Hle & Hat & Hmin).
  rewrite Hnode. f_equal.
  destruct (Nat.lt_trichotomy (node - i) j) as [Hlt|[Heq|Hgt]]; [|lia|].
  - by destruct (Hbefore _ Hlt).
  - by destruct (Hmin _ Hgt).
Qed.

(** C5, as amended.  [resolveUseNodes] goes through every [use] node.
    A node whose extension is [.otf] or [.ttf] in any letter case is never
    entered in the dictionary; its name as written goes to the font cache
    when [fs::is_regular] holds of that name, and an error is printed
    otherwise.  Any other name is a key of the dictionary afterwards,
    whatever the search for it found; it carries the first node with that
    name when it was not a key before, and keeps its node when it was. *)
Theorem resolveUseNodes_classifies fs this w :
  let out := resolveUseNodes fs this w in
  let uses := use_filenames (externalList this) in
  is_font_file "Foo.TTF" = true /\
  (forall f, is_font_file f = true ->
     externalDict out.1 !! f = externalDict this !! f) /\
  fonts out.2 =
    fonts w ++ List.filter (fun f => is_font_file f && is_regular fs f) uses /\
  diag out.2 =
    diag w ++
    (FontError <$>
       List.filter (fun f => is_font_file f && negb (is_regular fs f)) uses) /\
  mcache out.2 = mcache w /\
  externalList out.1 = externalList this /\
  (forall fs' w', externalDict (resolveUseNodes fs' this w').1 =
                  externalDict out.1) /\
  (forall i f, externalList this !! i = Some (UseNode f) ->
     is_font_file f = false ->
     is_Some (externalDict out.1 !! f) /\
     (forall node, externalDict this !! f = Some node ->
        externalDict out.1 !! f = Some node) /\
     (externalDict this !! f = None ->
      (forall j, (j < i)%nat -> externalList this !! j ≠ Some (UseNode f)) ->
      externalDict out.1 !! f = Some i)).
Proof.
  intros out uses. subst out. unfold resolveUseNodes.
  cbn [fst snd externalDict with_externalDict externalList].
  destruct (resolveUseNodes_loop_spec fs (path this) 0 (externalList this)
              (externalDict this) w) as (Hdict & Hcache & Hfonts & Hdiag).
  cbn zeta in Hdict, Hcache, Hfonts, Hdiag.
  split; [done|]. split.
  { intros f Hf. rewrite Hdict. unfold resolved_lookup. rewrite Hf.
    by destruct (externalDict this !! f). }
  split; [done|]. split; [done|]. split; [done|]. split; [done|]. split.
  { intros fs' w'.
    destruct (resolveUseNodes_loop_spec fs' (path this) 0 (externalList this)
                (externalDict this) w') as (Hdict' & _).
    apply map_eq. intros q. by rewrite Hdict', Hdict. }
  intros i f Hi Hfont. rewrite Hdict. unfold resolved_lookup. rewrite Hfont.
  split; [|split].
  - destruct (externalDict this !! f); [eauto|].
    apply first_use_is_Some. by eapply list_elem_of_lookup_2.
  - by intros node ->.
  - intros -> Hfirst. by rewrite (first_use_first 0 _ _ i).
Qed.

(** C9.  A second [resolveExternals] leaves the dictionary as the first
    one made it, whatever the file system and the world are at either
    call. *)
Theorem resolveExternals_idempotent fs1 fs2 this w1 w2 :
  externalDict (resolveExternals fs2 (resolveExternals fs1 this w1).1 w2).1 =
  externalDict (resolveExternals fs1 this w1).1.
Proof.
  unfold resolveExternals, resolveIncludeNodes, resolveUseNodes.
  cbn [fst snd externalDict with_externalDict externalList path].
  apply map_eq. intros q.
  set (w1' := resolveIncludeNodes_loop fs1 _ _ w1).
  set (w2' := resolveIncludeNodes_loop fs2 _ _ w2).
  destruct (resolveUseNodes_loop_spec fs1 (path this) 0 (externalList this)
              (externalDict this) w1') as (Hdict1 & _).
  cbn zeta in Hdict1.
  set (dict1 := (resolveUseNodes_loop fs1 (path this) 0 (externalList this)
                   (externalDict this, w1')).1) in *.
  destruct (resolveUseNodes_loop_spec fs2 (path this) 0 (externalList this)
              dict1 w2') as (Hdict2 & _).
  cbn zeta in Hdict2. rewrite Hdict2. unfold resolved_lookup at 1.
  destruct (dict1 !! q) as [node|] eqn:Hq; [done|].
  rewrite Hdict1 in Hq. unfold resolved_lookup in Hq.
  destruct (externalDict this !! q); [done|]. by destruct (is_font_file q).
Qed.

(** ** Freshness of the includes *)

Lemma includesChanged_fold fs this :
  includesChanged fs this = fold_left Z.max (include_mtimes fs this) 0.
Proof.
  unfold includesChanged, include_mtimes. generalize 0.
  induction (externalList this) as [|n nodes IH]; intros latest0; [done|].
  cbn [fold_left List.filter]. destruct n as [f|f]; cbn [is_include_node].
  - apply IH.
  - cbn [fmap list_fmap fold_left]. rewrite latest_step. apply IH.
Qed.

(** C6, as amended.  [includesChanged] returns the larger of 0 and the
    greatest [includeModified] of the include nodes: the greatest one
    when none is negative (so [T2] for two includes with times
    [T1 < T2], [0 <= T2]) and 0 when there is no include node.
    [includeModified] returns the time of its [StatCache::stat] lookup,
    and 0 when that lookup fails.  Neither function takes or returns the
    module cache. *)
Theorem includesChanged_latest fs this :
  let times := include_mtimes fs this in
  includesChanged fs this = Z.max 0 (maximum_or_zero times) /\
  (Forall (fun mtime => 0 <= mtime) times ->
   includesChanged fs this = maximum_or_zero times) /\
  (times = [] -> includesChanged fs this = 0) /\
  (forall T1 T2, times = [T1; T2] \/ times = [T2; T1] -> T1 < T2 -> 0 <= T2 ->
     includesChanged fs this = T2) /\
  (forall node mtime, stat_mtime fs (node_filename node) = Some mtime ->
     includeModified fs node = mtime) /\
  (forall node, stat_mtime fs (node_filename node) = None ->
     includeModified fs node = 0).
Proof.
  intros times.
  assert (includesChanged fs this = Z.max 0 (maximum_or_zero times)) as Hmax.
  { rewrite includesChanged_fold. apply fold_left_max_maximum. }
  split; [done|]. split.
  { intros Hpos. rewrite Hmax. by apply maximum_or_zero_nonneg. }
  split.
  { intros Hnil. rewrite Hmax, Hnil. done. }
  split.
  { intros T1 T2 Htimes Hlt Hpos. rewrite Hmax.
    destruct Htimes as [-> | ->]; cbn; lia. }
  split.
  - intros node mtime Hstat. unfold includeModified. by rewrite Hstat.
  - intros node Hstat. unfold includeModified. by rewrite Hstat.
Qed.

(** ** Resolution of the includes *)

Lemma resolveIncludeNodes_loop_app fs this_path pre post w :
  Forall (fun n => include_failure fs this_path n = None) pre ->
  resolveIncludeNodes_loop fs this_path (pre ++ post) w =
  resolveIncludeNodes_loop fs this_path post
    (resolveIncludeNodes_loop fs this_path pre w).
Proof.
  intros Hpre. revert w. induction Hpre as [|n pre Hn _ IH]; intros w; [done|].
  cbn [app resolveIncludeNodes_loop]. destruct n as [f|f]; [apply IH|].
  unfold include_failure in Hn.
  destruct (path_empty (find_valid_path fs this_path f)); [apply IH|].
  destruct (ifstream_read fs (find_valid_path fs this_path f)) as [text|];
    [|done].
  destruct (parse text (find_valid_path fs this_path f)); [apply IH|done].
Qed.

Lemma resolveIncludeNodes_loop_frame fs this_path nodes w :
  mcache (resolveIncludeNodes_loop fs this_path nodes w) = mcache w /\
  fonts (resolveIncludeNodes_loop fs this_path nodes w) = fonts w /\
  exists ds, diag (resolveIncludeNodes_loop fs this_path nodes w) = diag w ++ ds.
Proof.
  revert w. induction nodes as [|n nodes IH]; intros w.
  { split; [done|]. split; [done|]. exists []. by rewrite app_nil_r. }
  cbn [resolveIncludeNodes_loop]. destruct n as [f|f]; [apply IH|].
  destruct (path_empty (find_valid_path fs this_path f)).
  { destruct (IH (report (IncludeWarning f) w)) as (? & ? & ds & Hds).
    split; [done|]. split; [done|]. exists (IncludeWarning f :: ds).
    rewrite Hds. cbn. by rewrite <- app_assoc. }
  destruct (ifstream_read fs (find_valid_path fs this_path f)) as [text|].
  2:{ split; [done|]. split; [done|]. by eexists. }
  destruct (parse text (find_valid_path fs this_path f)); [apply IH|].
  split; [done|]. split; [done|]. by eexists.
Qed.

(** Without a failure, the loop prints the warnings of the includes that
    are not found, in order. *)
Lemma resolveIncludeNodes_loop_warnings fs this_path nodes w :
  Forall (fun n => include_failure fs this_path n = None) nodes ->
  diag (resolveIncludeNodes_loop fs this_path nodes w) =
  diag w ++
  (IncludeWarning <$>
     List.filter (fun f => path_empty (find_valid_path fs this_path f))
       (include_filenames nodes)).
Proof.
  intros Hok. revert w. induction Hok as [|n nodes Hn _ IH]; intros w.
  { cbn. by rewrite app_nil_r. }
  cbn [resolveIncludeNodes_loop include_filenames omap list_omap].
  destruct n as [f|f]; [apply IH|]. cbn [List.filter].
  unfold include_failure in Hn.
  destruct (path_empty (find_valid_path fs this_path f)).
  { rewrite IH. cbn. by rewrite <- app_assoc. }
  destruct (ifstream_read fs (find_valid_path fs this_path f)) as [text|];
    [|done].
  destruct (parse text (find_valid_path fs this_path f)); [apply IH|done].
Qed.

(** C8.  Let the list of a file be [pre], then [node], then [post], where
    no include of [pre] is found and then fails to open or to parse.
    [resolveIncludeNodes] on the file first does what it does on [pre]
    alone, which is to print the warnings of the includes of [pre] that
    are not found.  When [node] is an include that is not found, it then
    prints the warning for [node] and goes on as it does on [post]; when
    [node] is an include that is found and cannot be opened or parsed, it
    prints that message and returns, so that [post] is not looked at.
    It leaves the object as it is and only adds messages.  Whatever the
    includes did, [resolveExternals] then runs [resolveUseNodes] in full:
    the dictionary and the font registrations are those of
    [resolveUseNodes] alone, and its messages follow those of the
    includes. *)
Theorem resolveIncludeNodes_failures fs this w pre node post :
  externalList this = pre ++ node :: post ->
  Forall (fun n => include_failure fs (path this) n = None) pre ->
  let out := resolveIncludeNodes fs this w in
  let w_pre := (resolveIncludeNodes fs (with_externalList pre this) w).2 in
  let warned :=
    IncludeWarning <$>
      List.filter (fun f => path_empty (find_valid_path fs (path this) f))
        (include_filenames pre) in
  out.1 = this /\
  diag w_pre = diag w ++ warned /\
  (forall localpath,
     node = IncludeNode localpath ->
     path_empty (find_valid_path fs (path this) localpath) = true ->
     out.2 =
       (resolveIncludeNodes fs (with_externalList post this)
          (report (IncludeWarning localpath) w_pre)).2 /\
     exists ds,
       diag out.2 = diag w ++ warned ++ IncludeWarning localpath :: ds) /\
  (forall d,
     include_failure fs (path this) node = Some d ->
     out.2 = report d w_pre /\
     diag out.2 = diag w ++ warned ++ [d]) /\
  (forall this0 w0, exists ds,
     diag (resolveIncludeNodes fs this0 w0).2 = diag w0 ++ ds) /\
  forall this0 w0,
    let r := resolveExternals fs this0 w0 in
    let uses := use_filenames (externalList this0) in
    r.1 = (resolveUseNodes fs this0 w0).1 /\
    fonts r.2 = fonts (resolveUseNodes fs this0 w0).2 /\
    fonts r.2 =
      fonts w0 ++ List.filter (fun f => is_font_file f && is_regular fs f) uses /\
    diag r.2 =
      diag (resolveIncludeNodes fs this0 w0).2 ++
      (FontError <$>
         List.filter (fun f => is_font_file f && negb (is_regular fs f)) uses).
Proof.
  intros Hlist Hpre out w_pre warned. subst out w_pre warned.
  unfold resolveIncludeNodes.
  cbn [fst snd path externalList with_externalList]. rewrite Hlist.
  pose proof (resolveIncludeNodes_loop_warnings fs (path this) pre w Hpre)
    as Hwarned.
  set (w_pre := resolveIncludeNodes_loop fs (path this) pre w) in *.
  split; [done|]. split; [done|]. split; [|split; [|split]].
  - intros localpath -> Hempty. rewrite resolveIncludeNodes_loop_app by done.
    fold w_pre. cbn [resolveIncludeNodes_loop]. rewrite Hempty.
    split; [done|].
    destruct (resolveIncludeNodes_loop_frame fs (path this) post
                (report (IncludeWarning localpath) w_pre)) as (_ & _ & ds & Hds).
    exists ds. rewrite Hds. cbn [diag report]. rewrite Hwarned.
    by rewrite <- !app_assoc.
  - intros d Hd. rewrite resolveIncludeNodes_loop_app by done.
    fold w_pre.
    assert (resolveIncludeNodes_loop fs (path this) (node :: post) w_pre =
            report d w_pre) as ->.
    { unfold include_failure in Hd. destruct node as [f|f]; [done|].
      cbn [resolveIncludeNodes_loop].
      destruct (path_empty (find_valid_path fs (path this) f)); [done|].
      destruct (ifstream_read fs (find_valid_path fs (path this) f)) as [text|];
        [|by injection Hd as <-].
      destruct (parse text (find_valid_path fs (path this) f));
        [done|by injection Hd as <-]. }
    split; [done|]. cbn [diag report]. rewrite Hwarned. by rewrite <- app_assoc.
  - intros this0 w0. apply resolveIncludeNodes_loop_frame.
  - intros this0 w0.
    unfold resolveExternals, resolveIncludeNodes, resolveUseNodes.
    cbn [fst snd path externalList externalDict].
    set (w1 := resolveIncludeNodes_loop fs (path this0) (externalList this0) w0).
    destruct (resolveIncludeNodes_loop_frame fs (path this0) (externalList this0) w0)
      as (_ & Hfonts1 & _). fold w1 in Hfonts1.
    destruct (resolveUseNodes_loop_spec fs (path this0) 0 (externalList this0)
                (externalDict this0) w1) as (Hd1 & _ & Hf1 & Hg1).
    destruct (resolveUseNodes_loop_spec fs (path this0) 0 (externalList this0)
                (externalDict this0) w0) as (Hd0 & _ & Hf0 & _).
    cbn zeta in *. split; [|split; [|split]].
    + f_equal. apply map_eq. intros q. by rewrite Hd1, Hd0.
    + by rewrite Hf1, Hf0, Hfonts1.
    + by rewrite Hf1, Hfonts1.
    + done.
Qed.

(** * Further properties *)

(** ** What a pass leaves alone *)

Lemma consult_cache_messages fs wasmissing filename st :
  exists ds,
    diag (dep_world (consult_cache fs wasmissing filename st).2) =
      diag (dep_world st) ++ ds /\
    Forall (fun d => dependency_message d = true /\
                     (debug = false -> exists f, d = LibraryWarning f)) ds.
Proof.
  unfold consult_cache.
  destruct (evaluate fs (mcache (dep_world st)) filename)
    as [cache' [newmodule mtime|e]]; cbn [snd dep_world].
  2:{ exists []. by rewrite app_nil_r. }
  set (w1 := if _ && bool_decide _ then printdb _ _ else printdb _ _).
  assert (exists ds1, diag w1 = diag (dep_world st) ++ ds1 /\
            Forall (fun d => dependency_message d = true /\
                             (debug = false -> exists f, d = LibraryWarning f))
              ds1) as (ds1 & Hds1 & Hall1).
  { subst w1. unfold printdb. destruct (_ && _), debug eqn:Hdebug; cbn;
      try (exists []; by rewrite app_nil_r);
      (eexists [_]; split; [done|]; repeat constructor; done). }
  destruct (is_null newmodule && _ && _); cbn.
  - exists (ds1 ++ [LibraryWarning filename]). rewrite Hds1, app_assoc.
    split; [done|]. apply Forall_app. split; [done|].
    repeat constructor. eauto.
  - by exists ds1.
Qed.

Lemma dependency_loop_messages fs this_path entries st :
  exists ds,
    diag (dep_world (dependency_loop fs this_path entries st).2) =
      diag (dep_world st) ++ ds /\
    Forall (fun d => dependency_message d = true /\
                     (debug = false -> exists f, d = LibraryWarning f)) ds.
Proof.
  revert st. induction entries as [|[key node] rest IH]; intros st.
  { exists []. by rewrite app_nil_r. }
  cbn [dependency_loop]. rewrite dependency_body_spec.
  destruct (effective_key fs this_path key) as [filename|]; [|apply IH].
  set (st0 := mkDepState _ _ _).
  destruct (consult_cache_messages fs (negb (is_absolute key)) filename st0)
    as (ds0 & Hds0 & Hall0).
  destruct (consult_cache _ _ _ _) as [[e|] st']; cbn [snd] in *.
  { by exists ds0. }
  destruct (IH st') as (ds & Hds & Hall). exists (ds0 ++ ds).
  rewrite Hds, Hds0, app_assoc. split; [done|]. by apply Forall_app.
Qed.

Lemma library_warnings_only (ds : list (@Diagnostic ModulePtr)) :
  Forall (fun d => exists f, d = LibraryWarning f) ds ->
  ds = LibraryWarning <$> library_warnings ds.
Proof.
  induction 1 as [|d ds [f ->] _ IH]; [done|].
  cbn [library_warnings omap list_omap fmap list_fmap]. f_equal. exact IH.
Qed.

(** Every node of the dictionary after the second loop was in it
    before. *)
Lemma apply_updates_values (U : list (string * string)) dict q (node : NodeRef) :
  (apply_updates U dict).2 !! q = Some node ->
  exists key, dict !! key = Some node.
Proof.
  revert dict. induction U as [|[k p] U IH]; intros dict; cbn [apply_updates fst snd].
  { eauto. }
  destruct (dict !! k) as [v|] eqn:Hk; [|cbn; eauto].
  intros Hq. destruct (IH _ Hq) as [key Hkey].
  destruct (decide (k = key)) as [->|Hne]; [by rewrite lookup_delete_eq in Hkey|].
  rewrite lookup_delete_ne in Hkey by done. rewrite dict_insert_lookup in Hkey.
  destruct (dict !! key) as [v'|] eqn:Hkey'; [simplify_eq; eauto|].
  case_decide; simplify_eq. eauto.
Qed.

(** The second loop does not make the dictionary larger. *)
Lemma apply_updates_size (U : list (string * string)) dict :
  (size (apply_updates U dict).2 <= size dict)%nat.
Proof.
  revert dict. induction U as [|[k p] U IH]; intros dict; cbn [apply_updates fst snd].
  { done. }
  destruct (dict !! k) as [v|] eqn:Hk; [|done].
  etrans; [apply IH|].
  assert (is_Some (dict_insert p v dict !! k)) as Hin.
  { rewrite dict_insert_lookup, Hk. eauto. }
  rewrite map_size_delete_Some by done.
  unfold dict_insert. destruct (dict !! p) eqn:Hp; [lia|].
  rewrite map_size_insert_None by done. lia.
Qed.

Lemma renames_nil fs this_path entries :
  (forall key, key ∈ entries.*1 ->
     is_absolute key = true \/
     path_empty (find_valid_path fs this_path key) = true) ->
  renames fs this_path entries = [].
Proof.
  induction entries as [|[key node] rest IH]; intros Hall; [done|].
  cbn [renames flat_map fst]. fold (renames fs this_path rest).
  rewrite IH by (intros k Hk; apply Hall, elem_of_cons; by right).
  rewrite app_nil_r. unfold rename_of.
  destruct (Hall key) as [-> | Hempty]; [apply elem_of_cons; by left|done|].
  destruct (is_absolute key); [done|]. cbn. by rewrite Hempty.
Qed.

(** The first loop leaves its state alone when no entry has an effective
    key. *)
Lemma dependency_loop_idle fs this_path entries st :
  (forall key, key ∈ entries.*1 -> effective_key fs this_path key = None) ->
  dependency_loop fs this_path entries st = (None, st).
Proof.
  induction entries as [|[key node] rest IH]; intros Hall; [done|].
  cbn [dependency_loop]. rewrite dependency_body_spec.
  rewrite (Hall key) by (apply elem_of_cons; by left).
  apply IH. intros k Hk. apply Hall, elem_of_cons. by right.
Qed.

Lemma with_handling_restore this :
  is_handling_dependencies this = false ->
  with_handling false (with_externalDict (externalDict this)
                         (with_handling true this)) = this.
Proof. destruct this. cbn. by intros ->. Qed.

Lemma claimed_by_target (U : list (string * string)) dict q :
  is_Some (claimed_by U dict q) -> q ∈ U.*2.
Proof.
  intros Hsome. destruct (decide (q ∈ U.*2)) as [|Hnot]; [done|].
  rewrite claimed_by_None in Hsome by done. by destruct Hsome.
Qed.

(** The files a pass warns about are keys of the dictionary, in the order
    of the entries. *)
Lemma warned_sublist fs this_path (c : ModuleCache) entries :
  (v_filename <$> List.filter visit_warns (visits fs this_path c entries))
    `sublist_of` entries.*1 /\
  Forall (fun f => is_absolute f = true)
    (v_filename <$> List.filter visit_warns (visits fs this_path c entries)).
Proof.
  revert c. induction entries as [|[key node] rest IH]; intros c.
  { split; [constructor|constructor]. }
  cbn [visits fmap list_fmap fst]. unfold effective_key.
  destruct (is_absolute key) eqn:Habs.
  - cbn [List.filter]. set (v := mkVisit _ _ _ _ _ _).
    assert (v_filename <$> match v_result v with
                           | EvalReturns _ _ =>
                               List.filter visit_warns
                                 (visits fs this_path (evaluate fs c key).1 rest)
                           | EvalThrows _ => List.filter visit_warns []
                           end `sublist_of` rest.*1 /\
            Forall (fun f => is_absolute f = true)
              (v_filename <$> match v_result v with
                              | EvalReturns _ _ =>
                                  List.filter visit_warns
                                    (visits fs this_path (evaluate fs c key).1 rest)
                              | EvalThrows _ => List.filter visit_warns []
                              end)) as [Hsub Hall].
    { destruct (v_result v); [apply IH|]. split; [apply sublist_nil_l|constructor]. }
    replace (List.filter visit_warns
               match (evaluate fs c key).2 with
               | EvalReturns _ _ => visits fs this_path (evaluate fs c key).1 rest
               | EvalThrows _ => []
               end)
      with (match v_result v with
            | EvalReturns _ _ =>
                List.filter visit_warns
                  (visits fs this_path (evaluate fs c key).1 rest)
            | EvalThrows _ => List.filter visit_warns []
            end) by (cbn; by destruct ((evaluate fs c key).2)).
    destruct (visit_warns v); cbn [fmap list_fmap].
    + split; [by apply sublist_skip|by constructor].
    + split; [by apply sublist_cons|done].
  - destruct (path_empty (find_valid_path fs this_path key)).
    { destruct (IH c) as [IH1 IH2]. split; [by apply sublist_cons|done]. }
    cbn [List.filter]. set (v := mkVisit _ _ _ _ _ _).
    assert (visit_warns v = false) as ->.
    { destruct (visit_warns v) eqn:Hw; [|done].
      by apply visit_warns_iff in Hw as (_ & _ & Hmiss). }
    destruct ((evaluate fs c (find_valid_path fs this_path key)).2).
    + destruct (IH (evaluate fs c (find_valid_path fs this_path key)).1)
        as [IH1 IH2]. split; [by apply sublist_cons|done].
    + cbn. split; [apply sublist_nil_l|constructor].
Qed.

(** X1.  Whatever the guard and however the pass ends,
    [handleDependencies] keeps the list of nodes, the path, the file name
    and the scope of the object, registers no font, and only adds
    messages of its own kinds (the library warning and the two traces)
    after those printed before; with [PRINTDB] silent and the guard down,
    what it adds is exactly the library warnings of the consultations
    that warn. *)
Theorem handleDependencies_frame fs this w :
  let r := handleDependencies fs this w in
  externalList (self r) = externalList this /\
  path (self r) = path this /\
  filename (self r) = filename this /\
  scope (self r) = scope this /\
  fonts (world r) = fonts w /\
  exists ds,
    diag (world r) = diag w ++ ds /\
    Forall (fun d => dependency_message d = true) ds /\
    (debug = false -> is_handling_dependencies this = false ->
     ds = LibraryWarning <$>
            (v_filename <$>
               List.filter visit_warns
                 (visits fs (path this) (mcache w)
                    (dict_order (externalDict this))))).
Proof.
  intros r. subst r. unfold handleDependencies.
  destruct (is_handling_dependencies this) eqn:Hguard.
  { cbn. repeat (split; [done|]). exists []. rewrite app_nil_r.
    repeat split; [constructor|done]. }
  cbn [with_handling path externalDict].
  pose proof (dependency_loop_spec fs (path this) (dict_order (externalDict this))
                (mkDepState w [] 0)) as (_ & _ & Hfonts & _ & Hwarn & _).
  destruct (dependency_loop_messages fs (path this)
              (dict_order (externalDict this)) (mkDepState w [] 0))
    as (ds & Hds & Hall).
  cbn [dep_world] in *.
  assert (Forall (fun d => dependency_message d = true) ds /\
          (debug = false -> false = false ->
           ds = LibraryWarning <$>
                  (v_filename <$>
                     List.filter visit_warns
                       (visits fs (path this) (mcache w)
                          (dict_order (externalDict this)))))) as [Hkinds Hexact].
  { split; [eapply Forall_impl; [exact Hall|]; by intros d [? _]|].
    intros Hdebug _. rewrite Hds, library_warnings_app in Hwarn.
    apply app_inv_head in Hwarn. rewrite <- Hwarn.
    apply library_warnings_only. eapply Forall_impl; [exact Hall|].
    intros d [_ Hd]. by apply Hd. }
  destruct (dependency_loop _ _ _ _) as [[e|] st]; cbn [snd] in *.
  { cbn. repeat (split; [done|]). by exists ds. }
  destruct (apply_updates _ _) as [[e|] dict']; cbn;
    repeat (split; [done|]); by exists ds.
Qed.

(** X2.  With the guard down, when every key of the dictionary is
    relative and not found, a pass returns 0 and changes neither the
    object nor the world: it calls [evaluate] for no entry, renames
    nothing and prints nothing. *)
Theorem handleDependencies_idle fs this w :
  is_handling_dependencies this = false ->
  (forall key, is_Some (externalDict this !! key) ->
     effective_key fs (path this) key = None) ->
  handleDependencies fs this w = mkRun (Returned 0) this w.
Proof.
  intros Hguard Hnone. unfold handleDependencies. rewrite Hguard.
  cbn [with_handling path externalDict].
  rewrite dependency_loop_idle.
  2:{ intros key Hkey. by apply Hnone, dict_order_keys. }
  cbn. by rewrite with_handling_restore.
Qed.

(** X3.  However a pass ends, every node of the dictionary after it was
    in the dictionary before it, and the dictionary has not grown. *)
Theorem handleDependencies_keeps_nodes fs this w :
  let r := handleDependencies fs this w in
  (forall q (node : NodeRef),
     externalDict (self r) !! q = Some node ->
     exists key, externalDict this !! key = Some node) /\
  (size (externalDict (self r)) <= size (externalDict this))%nat.
Proof.
  intros r. subst r. unfold handleDependencies.
  destruct (is_handling_dependencies this); [split; eauto|].
  cbn [with_handling path externalDict].
  destruct (dependency_loop _ _ _ _) as [[e|] st]; [split; eauto|].
  pose proof (apply_updates_values (updates st) (externalDict this)) as Hvalues.
  pose proof (apply_updates_size (updates st) (externalDict this)) as Hsize.
  destruct (apply_updates _ _) as [[e|] dict']; cbn in *; by split.
Qed.

(** X4.  After a pass that returns, with a search that finds absolute
    paths, every key is absolute or not found; so a further pass over the
    same file system renames nothing and leaves the dictionary as it is,
    however it ends. *)
Theorem handleDependencies_stable fs this w :
  is_handling_dependencies this = false ->
  (forall key, is_absolute key = false ->
     path_empty (find_valid_path fs (path this) key) = false ->
     is_absolute (find_valid_path fs (path this) key) = true) ->
  let r1 := handleDependencies fs this w in
  (exists mtime, result r1 = Returned mtime) ->
  (forall key, is_Some (externalDict (self r1) !! key) ->
     is_absolute key = true \/
     path_empty (find_valid_path fs (path this) key) = true) /\
  forall w2,
    externalDict (self (handleDependencies fs (self r1) w2)) =
    externalDict (self r1).
Proof.
  intros Hguard Habs r1 Hret.
  assert (forall key, is_Some (externalDict (self r1) !! key) ->
            is_absolute key = true \/
            path_empty (find_valid_path fs (path this) key) = true) as Hkeys.
  { intros key Hkey. unfold r1 in Hkey. rewrite pass_dictionary in Hkey by done.
    unfold renamed_lookup in Hkey.
    destruct (is_absolute key) eqn:Hrel; [by left|right].
    destruct (path_empty (find_valid_path fs (path this) key)) eqn:Hfound;
      [done|exfalso].
    case_decide as Hsrc; [by destruct Hkey|].
    destruct (externalDict this !! key) as [node|] eqn:Hnode.
    - apply Hsrc. apply list_elem_of_fmap.
      exists (key, find_valid_path fs (path this) key). split; [done|].
      apply elem_of_renames. rewrite dict_order_keys. eauto.
    - apply claimed_by_target in Hkey.
      apply list_elem_of_fmap in Hkey as ([k p] & -> & Hin).
      apply elem_of_renames in Hin as (_ & Hk & -> & Hp). cbn in Hrel.
      rewrite (Habs k Hk Hp) in Hrel. done. }
  split; [done|]. intros w2.
  destruct (handleDependencies_pass fs this w Hguard) as (Hres & Hself & _).
  cbn zeta in Hres, Hself. fold r1 in Hres, Hself.
  destruct Hret as [mtime Hret]. rewrite Hres in Hret.
  apply returned_not_thrown in Hret. rewrite Hret in Hself.
  assert (is_handling_dependencies (self r1) = false) as Hguard1
    by (by rewrite Hself).
  assert (path (self r1) = path this) as Hpath by (by rewrite Hself).
  destruct (handleDependencies_pass fs (self r1) w2 Hguard1) as (_ & Hself2 & _).
  cbn zeta in Hself2. rewrite Hself2.
  destruct (thrown (visits fs (path (self r1)) (mcache w2) _)); [reflexivity|].
  cbn [externalDict with_handling with_externalDict].
  rewrite renames_nil; [reflexivity|].
  intros key Hkey. rewrite Hpath. by apply Hkeys, dict_order_keys.
Qed.

(** X5.  With the guard down, the library warnings of one pass name
    distinct files, each of them an absolute key that the dictionary had
    before the pass; there are no more of them than entries. *)
Theorem handleDependencies_warnings_distinct fs this w :
  is_handling_dependencies this = false ->
  exists warned,
    library_warnings (diag (world (handleDependencies fs this w))) =
      library_warnings (diag w) ++ warned /\
    NoDup warned /\
    (length warned <= size (externalDict this))%nat /\
    forall f, f ∈ warned ->
      is_absolute f = true /\ is_Some (externalDict this !! f).
Proof.
  intros Hguard.
  destruct (handleDependencies_pass fs this w Hguard) as (_ & _ & _ & _ & Hwarn).
  cbn zeta in Hwarn. eexists. split; [exact Hwarn|].
  destruct (warned_sublist fs (path this) (mcache w)
              (dict_order (externalDict this))) as [Hsub Habs].
  split; [|split].
  - eapply sublist_NoDup; [apply dict_order_NoDup|exact Hsub].
  - apply sublist_length in Hsub. etrans; [exact Hsub|].
    rewrite length_fmap, <- length_map_to_list.
    by rewrite (Permutation_length (dict_order_entries (externalDict this))).
  - intros f Hf. split.
    + rewrite Forall_forall in Habs. by apply Habs.
    + apply dict_order_keys. by eapply elem_of_sublist.
Qed.

(** ** The registry and the resolution of the references *)

Lemma getUseNodes_filenames this :
  getUseNodes this = UseNode <$> use_filenames (externalList this).
Proof.
  unfold getUseNodes, use_filenames.
  induction (externalList this) as [|[f|f] nodes IH]; cbn; [done| |done].
  by rewrite IH.
Qed.

(** X6.  [getUseNodes] returns the [use] nodes of the list in the order
    of declaration: none for a new file, one more at the end after
    [addUseNode], the same after [addIncludeNode]; and the two functions
    that add a node leave the dictionary and the guard as they are. *)
Theorem getUseNodes_registry (p f : string) (sc : LocalScope) this :
  getUseNodes (FileModule_new p f sc) = [] /\
  getUseNodes (addUseNode f this) = getUseNodes this ++ [UseNode f] /\
  getUseNodes (addIncludeNode f this) = getUseNodes this /\
  getUseNodes this = UseNode <$> use_filenames (externalList this) /\
  externalDict (addUseNode f this) = externalDict this /\
  externalDict (addIncludeNode f this) = externalDict this /\
  is_handling_dependencies (addUseNode f this) = is_handling_dependencies this /\
  is_handling_dependencies (addIncludeNode f this) =
    is_handling_dependencies this.
Proof.
  split; [done|]. split; [|split; [|split; [apply getUseNodes_filenames|done]]].
  - unfold getUseNodes, addUseNode. cbn [externalList with_externalList].
    by rewrite List.filter_app.
  - unfold getUseNodes, addIncludeNode. cbn [externalList with_externalList].
    rewrite List.filter_app. cbn. by rewrite app_nil_r.
Qed.

Lemma fold_left_max_ge_elem (l : list time_t) (a x : time_t) :
  x ∈ l -> x <= fold_left Z.max l a.
Proof.
  revert a. induction l as [|y l IH]; intros a; [by intros ?%elem_of_nil|].
  cbn. intros [->|Hin]%elem_of_cons.
  - etrans; [|apply fold_left_max_le]. lia.
  - by apply IH.
Qed.

(** X7.  [includesChanged] is never negative and is at least the
    [includeModified] of every include node.  It is 0 for a new file, is
    not changed by [addUseNode], and after [addIncludeNode] is the larger
    of what it was and the [includeModified] of the new node. *)
Theorem includesChanged_registry fs (p f : string) (sc : LocalScope) this :
  includesChanged fs (FileModule_new p f sc) = 0 /\
  includesChanged fs (addUseNode f this) = includesChanged fs this /\
  includesChanged fs (addIncludeNode f this) =
    Z.max (includesChanged fs this) (includeModified fs (IncludeNode f)) /\
  0 <= includesChanged fs this /\
  forall node, node ∈ externalList this -> is_include_node node = true ->
    includeModified fs node <= includesChanged fs this.
Proof.
  split; [done|]. rewrite !includesChanged_fold. unfold include_mtimes.
  split; [|split; [|split]].
  - unfold addUseNode. cbn [externalList with_externalList].
    rewrite List.filter_app. cbn. by rewrite app_nil_r.
  - unfold addIncludeNode. cbn [externalList with_externalList].
    rewrite List.filter_app, fmap_app, fold_left_app. done.
  - apply fold_left_max_le.
  - intros node Hin Hinc. apply fold_left_max_ge_elem.
    apply list_elem_of_fmap. exists node. split; [done|].
    apply list_elem_of_In, List.filter_In. by rewrite <- list_elem_of_In.
Qed.

(** X8.  When no include of the file is found and then fails to open or
    to parse, [resolveIncludeNodes] prints one warning for each include
    that is not found, in the order of declaration, and nothing else; it
    changes neither the object nor the module cache nor the fonts. *)
Theorem resolveIncludeNodes_warnings fs this w :
  Forall (fun n => include_failure fs (path this) n = None) (externalList this) ->
  let out := resolveIncludeNodes fs this w in
  out.1 = this /\
  mcache out.2 = mcache w /\
  fonts out.2 = fonts w /\
  diag out.2 =
    diag w ++
    (IncludeWarning <$>
       List.filter (fun f => path_empty (find_valid_path fs (path this) f))
         (include_filenames (externalList this))).
Proof.
  intros Hok out. subst out. unfold resolveIncludeNodes. cbn [fst snd].
  destruct (resolveIncludeNodes_loop_frame fs (path this) (externalList this) w)
    as (Hcache & Hfonts & _).
  split; [done|]. split; [done|]. split; [done|]. clear Hcache Hfonts.
  revert w. induction Hok as [|n nodes Hn _ IH]; intros w.
  { cbn. by rewrite app_nil_r. }
  cbn [resolveIncludeNodes_loop include_filenames omap list_omap].
  destruct n as [f|f]; [apply IH|]. cbn [List.filter].
  unfold include_failure in Hn.
  destruct (path_empty (find_valid_path fs (path this) f)).
  { rewrite IH. cbn. by rewrite <- app_assoc. }
  destruct (ifstream_read fs (find_valid_path fs (path this) f)) as [text|];
    [|done].
  destruct (parse text (find_valid_path fs (path this) f)); [apply IH|done].
Qed.

Lemma first_use_elem i nodes q :
  is_Some (first_use i nodes q) <-> UseNode q ∈ nodes.
Proof.
  split; [|apply first_use_is_Some].
  intros [node Hnode]. apply first_use_bounds in Hnode as (_ & Hat & _).
  by eapply list_elem_of_lookup_2.
Qed.

(** X9.  After [resolveUseNodes] the keys of the dictionary are those it
    had and the names of the [use] nodes that are no font files; no key
    it had has lost or changed its node, so the dictionary has not
    shrunk. *)
Theorem resolveUseNodes_domain fs this w :
  let dict' := externalDict (resolveUseNodes fs this w).1 in
  (forall q, is_Some (dict' !! q) <->
     is_Some (externalDict this !! q) \/
     (is_font_file q = false /\ UseNode q ∈ externalList this)) /\
  (forall q node, externalDict this !! q = Some node -> dict' !! q = Some node) /\
  externalDict this ⊆ dict'.
Proof.
  intros dict'. subst dict'. unfold resolveUseNodes.
  cbn [fst externalDict with_externalDict].
  destruct (resolveUseNodes_loop_spec fs (path this) 0 (externalList this)
              (externalDict this) w) as (Hdict & _).
  cbn zeta in Hdict.
  assert (forall q node, externalDict this !! q = Some node ->
            (resolveUseNodes_loop fs (path this) 0 (externalList this)
               (externalDict this, w)).1 !! q = Some node) as Hkeep.
  { intros q node Hq. rewrite Hdict. unfold resolved_lookup. by rewrite Hq. }
  split; [|split; [done|]].
  - intros q. rewrite Hdict. unfold resolved_lookup.
    destruct (externalDict this !! q) as [node|]; [split; eauto|].
    destruct (is_font_file q).
    + split; [by intros [? ?]|]. intros [[? ?]|[? _]]; done.
    + rewrite first_use_elem. split; [eauto|]. intros [[? ?]|[_ ?]]; done.
  - apply map_subseteq_spec. intros q node. apply Hkeep.
Qed.

Lemma filter_split_length {A : Type} (P Q : A -> bool) (l : list A) :
  (length (List.filter (fun x => P x && Q x) l) +
   length (List.filter (fun x => P x && negb (Q x)) l))%nat =
  length (List.filter P l).
Proof.
  induction l as [|x l IH]; [done|]. cbn.
  destruct (P x), (Q x); cbn; lia.
Qed.

(** X10.  [resolveUseNodes] answers every [use] of a font file with
    exactly one of a registration and an error message: the registrations
    and the errors it adds are as many as the font uses; it registers
    only font files that are regular files, and reports only font files
    that are not. *)
Theorem resolveUseNodes_fonts fs this w :
  let out := resolveUseNodes fs this w in
  let uses := use_filenames (externalList this) in
  exists registered errors,
    fonts out.2 = fonts w ++ registered /\
    diag out.2 = diag w ++ (FontError <$> errors) /\
    (length registered + length errors)%nat =
      length (List.filter is_font_file uses) /\
    (forall f, f ∈ registered <->
       f ∈ uses /\ is_font_file f = true /\ is_regular fs f = true) /\
    (forall f, f ∈ errors <->
       f ∈ uses /\ is_font_file f = true /\ is_regular fs f = false).
Proof.
  intros out uses. subst out. unfold resolveUseNodes. cbn [fst snd].
  destruct (resolveUseNodes_loop_spec fs (path this) 0 (externalList this)
              (externalDict this) w) as (_ & _ & Hfonts & Hdiag).
  cbn zeta in Hfonts, Hdiag. fold uses in Hfonts, Hdiag.
  eexists _, _. split; [exact Hfonts|]. split; [exact Hdiag|].
  split; [apply filter_split_length|]. split.
  - intros f. rewrite list_elem_of_In, List.filter_In, <- list_elem_of_In.
    rewrite andb_true_iff. tauto.
  - intros f. rewrite list_elem_of_In, List.filter_In, <- list_elem_of_In.
    rewrite andb_true_iff, negb_true_iff. tauto.
Qed.

Lemma handleDependencies_externalList fs this w :
  externalList (self (handleDependencies fs this w)) = externalList this.
Proof.
  unfold handleDependencies. destruct (is_handling_dependencies this); [done|].
  destruct (dependency_loop _ _ _ _) as [[e|] st]; [done|].
  by destruct (apply_updates _ _) as [[e|] dict'].
Qed.

Lemma handleDependencies_values fs this w q (node : NodeRef) :
  externalDict (self (handleDependencies fs this w)) !! q = Some node ->
  exists key, externalDict this !! key = Some node.
Proof.
  unfold handleDependencies. destruct (is_handling_dependencies this); [eauto|].
  cbn [with_handling path externalDict].
  destruct (dependency_loop _ _ _ _) as [[e|] st]; [eauto|].
  pose proof (apply_updates_values (updates st) (externalDict this) q node).
  by destruct (apply_updates _ _) as [[e|] dict'].
Qed.

(** X11.  That every node of the dictionary is a [use] node of the list
    for a file that is no font holds of a new file and is kept by
    [addUseNode], [addIncludeNode], [resolveUseNodes],
    [resolveIncludeNodes], [resolveExternals] and, however it ends,
    [handleDependencies]. *)
Theorem dictionary_refers_to_uses fs (p f : string) (sc : LocalScope) this w :
  dict_refers_to_uses (FileModule_new p f sc) /\
  (dict_refers_to_uses this ->
   dict_refers_to_uses (addUseNode f this) /\
   dict_refers_to_uses (addIncludeNode f this) /\
   dict_refers_to_uses (resolveUseNodes fs this w).1 /\
   dict_refers_to_uses (resolveIncludeNodes fs this w).1 /\
   dict_refers_to_uses (resolveExternals fs this w).1 /\
   dict_refers_to_uses (self (handleDependencies fs this w))).
Proof.
  split.
  { intros key node Hkey. cbn [FileModule_new externalDict] in Hkey.
    by rewrite lookup_empty in Hkey. }
  intros Hinv.
  assert (forall this' w',
            externalDict this' = externalDict this ->
            externalList this' = externalList this ->
            dict_refers_to_uses (resolveUseNodes fs this' w').1) as Huse.
  { intros this' w' Hd Hl key node. unfold resolveUseNodes.
    cbn [fst externalDict externalList with_externalDict].
    destruct (resolveUseNodes_loop_spec fs (path this') 0 (externalList this')
                (externalDict this') w') as (Hdict & _).
    cbn zeta in Hdict. rewrite Hdict, Hd, Hl. unfold resolved_lookup.
    destruct (externalDict this !! key) as [node'|] eqn:Hkey.
    { intros [= <-]. by apply (Hinv key). }
    destruct (is_font_file key) eqn:Hfont; [done|].
    intros (_ & Hat & _)%first_use_bounds. rewrite Nat.sub_0_r in Hat. eauto. }
  split; [|split; [|split; [|split; [|split]]]].
  - intros key node Hkey. destruct (Hinv key node Hkey) as (g & Hg & Hfont).
    exists g. split; [|done]. cbn. by apply lookup_app_l_Some.
  - intros key node Hkey. destruct (Hinv key node Hkey) as (g & Hg & Hfont).
    exists g. split; [|done]. cbn. by apply lookup_app_l_Some.
  - by apply Huse.
  - exact Hinv.
  - unfold resolveExternals, resolveIncludeNodes. cbn [fst snd]. by apply Huse.
  - intros key node Hkey. rewrite handleDependencies_externalList.
    apply handleDependencies_values in Hkey as [key' Hkey']. by apply (Hinv key').
Qed.

(** ** The test for font files *)

Lemma to_lower_char_idemp (a : ascii) :
  to_lower_char (to_lower_char a) = to_lower_char a.
Proof. destruct a as [[] [] [] [] [] [] [] []]; reflexivity. Qed.

Lemma to_lower_char_slash (a : ascii) :
  Ascii.eqb (to_lower_char a) "/" = Ascii.eqb a "/".
Proof. destruct a as [[] [] [] [] [] [] [] []]; reflexivity. Qed.

Lemma to_lower_char_dot (a : ascii) :
  Ascii.eqb (to_lower_char a) "." = Ascii.eqb a ".".
Proof. destruct a as [[] [] [] [] [] [] [] []]; reflexivity. Qed.

Lemma to_lower_copy_idemp (s : string) :
  to_lower_copy (to_lower_copy s) = to_lower_copy s.
Proof.
  induction s as [|a s IH]; [done|]. cbn.
  by rewrite to_lower_char_idemp, IH.
Qed.

Lemma from_last_lower (c : ascii) (s : string) :
  (forall a, Ascii.eqb (to_lower_char a) c = Ascii.eqb a c) ->
  from_last c (to_lower_copy s) = to_lower_copy <$> from_last c s.
Proof.
  intros Hc. induction s as [|a s IH]; [done|].
  cbn [to_lower_copy from_last]. rewrite IH, Hc.
  destruct (from_last c s); [done|]. cbn. by destruct (Ascii.eqb a c).
Qed.

Lemma path_filename_lower (p : string) :
  path_filename (to_lower_copy p) = to_lower_copy (path_filename p).
Proof.
  unfold path_filename. rewrite from_last_lower by apply to_lower_char_slash.
  by destruct (from_last "/" p) as [[|a r]|].
Qed.

Lemma eqb_dot_lower (f : string) :
  String.eqb (to_lower_copy f) "." = String.eqb f "." /\
  String.eqb (to_lower_copy f) ".." = String.eqb f "..".
Proof.
  destruct f as [|a [|b [|c f]]]; cbn; rewrite ?to_lower_char_dot; done.
Qed.

Lemma extension_lower (p : string) :
  extension (to_lower_copy p) = to_lower_copy (extension p).
Proof.
  unfold extension. rewrite path_filename_lower.
  destruct (eqb_dot_lower (path_filename p)) as [-> ->].
  destruct (_ || _); [done|].
  rewrite from_last_lower by apply to_lower_char_dot.
  by destruct (from_last "." (path_filename p)).
Qed.

(** X12.  The test for font files looks at the letters of a name without
    their case: two names that are equal up to the case of their letters
    are both font files or both not. *)
Theorem is_font_file_case_insensitive (f g : string) :
  to_lower_copy f = to_lower_copy g -> is_font_file f = is_font_file g.
Proof.
  assert (forall h, is_font_file (to_lower_copy h) = is_font_file h) as Hlower.
  { intros h. unfold is_font_file.
    by rewrite extension_lower, to_lower_copy_idemp. }
  intros Heq. by rewrite <- (Hlower f), <- (Hlower g), Heq.
Qed.

(** ** Resolution after a promotion *)

(** X13.  [resolveExternals] after a pass that promoted a key enters the
    name as written again: when the first [use] node for a relative name
    that is no font was found by a pass that returned, the dictionary
    after the pass lacks the name, and after a further [resolveExternals]
    it holds that node under the name and still has the path found as a
    key. *)
Theorem resolveExternals_after_promotion fs this w :
  is_handling_dependencies this = false ->
  (forall key, is_absolute key = false ->
     path_empty (find_valid_path fs (path this) key) = false ->
     is_absolute (find_valid_path fs (path this) key) = true) ->
  let r1 := handleDependencies fs this w in
  (exists mtime, result r1 = Returned mtime) ->
  forall (i : nat) key,
    externalList this !! i = Some (UseNode key) ->
    (forall j, (j < i)%nat -> externalList this !! j ≠ Some (UseNode key)) ->
    is_font_file key = false ->
    is_Some (externalDict this !! key) ->
    is_absolute key = false ->
    path_empty (find_valid_path fs (path this) key) = false ->
    forall fs' w',
      let dict2 := externalDict (resolveExternals fs' (self r1) w').1 in
      externalDict (self r1) !! key = None /\
      dict2 !! key = Some i /\
      is_Some (dict2 !! find_valid_path fs (path this) key) /\
      dict2 !! find_valid_path fs (path this) key =
        externalDict (self r1) !! find_valid_path fs (path this) key.
Proof.
  intros Hguard Habs r1 Hret i key Hi Hfirst Hfont [node Hnode] Hrel Hfound
    fs' w' dict2.
  destruct (pass_entry fs this w key node Hguard Habs Hret Hnode)
    as (_ & _ & Hpromoted).
  destruct (Hpromoted Hrel Hfound) as (Hgone & [node' Hpath] & _).
  fold r1 in Hgone, Hpath. subst dict2.
  unfold resolveExternals, resolveIncludeNodes, resolveUseNodes.
  cbn [fst snd externalDict with_externalDict externalList path].
  set (w1 := resolveIncludeNodes_loop fs' _ _ w').
  destruct (resolveUseNodes_loop_spec fs' (path (self r1)) 0
              (externalList (self r1)) (externalDict (self r1)) w1)
    as (Hdict & _).
  cbn zeta in Hdict. rewrite !Hdict. unfold resolved_lookup.
  rewrite Hgone, Hpath, Hfont. unfold r1 at 1.
  rewrite handleDependencies_externalList.
  rewrite (first_use_first 0 _ _ i) by done. eauto.
Qed.

(** ** The cache and the keys over a pass *)

(** X15.  [handleDependencies] changes the module cache through
    [evaluate] alone: a property of the cache that every call of
    [evaluate] keeps holds after the call, however it ends, when it held
    before. *)
Theorem handleDependencies_cache_invariant (P : ModuleCache -> Prop) fs this w :
  P (mcache w) ->
  (forall c f, P c -> P (evaluate fs c f).1) ->
  P (mcache (world (handleDependencies fs this w))).
Proof.
  intros Hw Hstep. unfold handleDependencies.
  destruct (is_handling_dependencies this); [done|].
  cbn [with_handling path externalDict].
  pose proof (dependency_loop_spec fs (path this) (dict_order (externalDict this))
                (mkDepState w [] 0)) as (_ & Hcache & _).
  cbn [dep_world] in Hcache.
  destruct (visits_invariant P fs (path this) (mcache w)
              (dict_order (externalDict this)) Hw Hstep) as [_ Hafter].
  rewrite <- Hcache in Hafter.
  destruct (dependency_loop _ _ _ _) as [[e|] st]; [done|].
  by destruct (apply_updates _ _) as [[e|] dict'].
Qed.

(** X16.  A pass over a dictionary in which every key is absolute or not
    found leaves the dictionary as it is, however the pass ends. *)
Theorem handleDependencies_no_promotion fs this w :
  (forall key, is_Some (externalDict this !! key) ->
     is_absolute key = true \/
     path_empty (find_valid_path fs (path this) key) = true) ->
  externalDict (self (handleDependencies fs this w)) = externalDict this.
Proof.
  intros Hkeys. unfold handleDependencies.
  destruct (is_handling_dependencies this); [done|].
  cbn [with_handling path externalDict].
  pose proof (dependency_loop_spec fs (path this) (dict_order (externalDict this))
                (mkDepState w [] 0)) as (Hthrown & _ & _ & _ & _ & Hupd).
  cbn [dep_world updates] in Hthrown, Hupd.
  destruct (dependency_loop _ _ _ _) as [[e|] st]; [done|].
  cbn [fst snd] in Hthrown, Hupd. rewrite (Hupd (eq_sym Hthrown)).
  rewrite renames_nil; [done|].
  intros key Hkey. by apply Hkeys, dict_order_keys.
Qed.

(** X17.  After [resolveExternals] and a pass that returns, with a search
    that finds absolute paths, every [use] of a file that is no font and
    is absolute or found is in the dictionary under its absolute name,
    and [evaluate] was called on that name. *)
Theorem resolveExternals_then_pass fs this w :
  is_handling_dependencies this = false ->
  (forall key, is_absolute key = false ->
     path_empty (find_valid_path fs (path this) key) = false ->
     is_absolute (find_valid_path fs (path this) key) = true) ->
  let resolved := resolveExternals fs this w in
  let r := handleDependencies fs resolved.1 resolved.2 in
  (exists mtime, result r = Returned mtime) ->
  forall f filename,
    UseNode f ∈ externalList this ->
    is_font_file f = false ->
    effective_key fs (path this) f = Some filename ->
    is_Some (externalDict (self r) !! filename) /\
    exists v,
      v ∈ visits fs (path this) (mcache resolved.2)
            (dict_order (externalDict resolved.1)) /\
      v_filename v = filename.
Proof.
  intros Hguard Habs resolved r Hret f filename Hf Hfont Heff.
  assert (path resolved.1 = path this /\
          is_handling_dependencies resolved.1 = false) as [Hpath Hguard1].
  { subst resolved. unfold resolveExternals, resolveIncludeNodes, resolveUseNodes.
    cbn. done. }
  assert (is_Some (externalDict resolved.1 !! f)) as [node Hnode].
  { subst resolved. unfold resolveExternals, resolveIncludeNodes, resolveUseNodes.
    cbn [fst snd externalDict with_externalDict externalList path].
    set (w1 := resolveIncludeNodes_loop fs _ _ w).
    destruct (resolveUseNodes_loop_spec fs (path this) 0 (externalList this)
                (externalDict this) w1) as (Hdict & _).
    cbn zeta in Hdict. rewrite Hdict. unfold resolved_lookup.
    destruct (externalDict this !! f); [eauto|]. rewrite Hfont.
    by apply first_use_is_Some. }
  rewrite <- Hpath in Habs.
  destruct (pass_entry fs resolved.1 resolved.2 f node Hguard1 Habs Hret Hnode)
    as (Hkeep & _ & Hfound).
  rewrite Hpath in Hfound. fold r in Hkeep, Hfound.
  unfold effective_key in Heff. destruct (is_absolute f) eqn:Hrel.
  - injection Heff as <-. split; [rewrite Hkeep; eauto|].
    destruct Hret as [mtime Hret].
    destruct (handleDependencies_pass fs resolved.1 resolved.2 Hguard1)
      as (Hres & _).
    cbn zeta in Hres. fold r in Hres. rewrite Hres in Hret.
    apply returned_not_thrown in Hret. rewrite Hpath in Hret.
    destruct (visits_reach fs (path this) (mcache resolved.2)
                (dict_order (externalDict resolved.1)) f f Hret)
      as (v & Hv & _ & Hvf).
    + apply dict_order_keys. eauto.
    + unfold effective_key. by rewrite Hrel.
    + eauto.
  - destruct (path_empty (find_valid_path fs (path this) f)) eqn:Hempty; [done|].
    injection Heff as <-.
    destruct (Hfound eq_refl eq_refl) as (_ & Hkey & (v & Hv & _ & Hvf) & _).
    split; [done|]. by exists v.
Qed.

End Properties.

Section Instantiation.

Context {ModulePtr ModuleCache LocalScope : Type}.
Context {Ctx FileContext ModuleInstantiation EvalContext AbstractNode : Type}.
Context `{!@Evaluator LocalScope Ctx FileContext AbstractNode}.

Implicit Types (this : @FileModule LocalScope).
Implicit Types (w : @World ModulePtr ModuleCache).
Implicit Types (inst : ModuleInstantiation) (evalctx : option EvalContext).

Lemma instantiateWithFileContext_spec this (context : FileContext) inst w :
  instantiateWithFileContext this context inst (@None EvalContext) w =
  match instantiate_try this context with
  | Returned nodes => (Returned (mkRootNode inst nodes), w)
  | Raised (EvaluationException what) =>
      (Returned (mkRootNode inst []), report (ExceptionMessage what) w)
  | Raised e => (Raised e, w)
  | AssertionFailed => (AssertionFailed, w)
  end.
Proof.
  unfold instantiateWithFileContext.
  by destruct (instantiate_try this context) as [nodes|[what| |what]|].
Qed.

(** C7.  Called as its assertion demands, [instantiate] is
    [instantiateWithFileContext] on a fresh file context, and no
    evaluation exception leaves it.  When [initializeModule] or
    [instantiateChildren] throws one, its message is printed and the root
    node is returned with the children it had got by then, which is none;
    when neither throws, the root node has the instantiated children.  So
    a root node is returned whenever nothing but evaluation exceptions is
    thrown. *)
Theorem instantiate_contains_evaluation_errors this (ctx : Ctx) inst evalctx w :
  evalctx = None ->
  let context := FileContext_new ctx in
  let out := instantiate this ctx inst evalctx w in
  out = instantiateWithFileContext this context inst evalctx w /\
  (forall what, out.1 ≠ Raised (EvaluationException what)) /\
  (forall what,
     initializeModule context this = Raised (EvaluationException what) ->
     out = (Returned (mkRootNode inst []), report (ExceptionMessage what) w)) /\
  (forall context' what,
     initializeModule context this = Returned context' ->
     instantiateChildren (scope this) context' =
       Raised (EvaluationException what) ->
     out = (Returned (mkRootNode inst []), report (ExceptionMessage what) w)) /\
  (forall context' nodes,
     initializeModule context this = Returned context' ->
     instantiateChildren (scope this) context' = Returned nodes ->
     out = (Returned (mkRootNode inst nodes), w)) /\
  ((forall e, instantiate_try this context = Raised e ->
      exists what, e = EvaluationException what) ->
   instantiate_try this context ≠ AssertionFailed ->
   exists node, out.1 = Returned node /\ modinst node = inst).
Proof.
  intros -> context out. subst out. unfold instantiate. fold context.
  rewrite instantiateWithFileContext_spec. split; [done|]. split.
  { intros what. by destruct (instantiate_try this context) as [?|[?| |?]|]. }
  unfold instantiate_try. split; [by intros what ->|]. split.
  { intros context' what -> ->. done. }
  split.
  { intros context' nodes -> ->. done. }
  intros Honly Hassert.
  destruct (match initializeModule context this with
            | Returned ctx0 => instantiateChildren (scope this) ctx0
            | Raised e => Raised e
            | AssertionFailed => AssertionFailed
            end) as [nodes|e|]; [by eexists| |done].
  destruct (Honly e eq_refl) as [what ->]. by eexists.
Qed.

(** X14.  However [instantiate] ends, it leaves the module cache and
    the fonts alone and prints at most one message, the text of an
    evaluation exception, in which case it returns the root node without
    children; a root node it returns belongs to the instantiation it was
    called for, and a call against its assertion stops before anything is
    evaluated or printed. *)
Theorem instantiate_frame this (ctx : Ctx) inst evalctx w :
  let out := instantiate this ctx inst evalctx w in
  mcache out.2 = mcache w /\
  fonts out.2 = fonts w /\
  (out.2 = w \/
   exists what,
     out = (Returned (mkRootNode inst []), report (ExceptionMessage what) w)) /\
  (forall node, out.1 = Returned node -> modinst node = inst) /\
  (evalctx ≠ None -> out = (AssertionFailed, w)).
Proof.
  intros out. subst out. unfold instantiate.
  destruct evalctx as [e|]; [repeat split; eauto; by intros ? [=]|].
  rewrite instantiateWithFileContext_spec.
  destruct (instantiate_try this (FileContext_new ctx)) as [nodes|[what| |what]|];
    cbn; repeat split; eauto; try (by intros ? [= <-]); by intros [].
Qed.

End Instantiation.

Section PrintingProperties.

Context {ModulePtr : Type} `{EqDecision ModulePtr}.
Context {ModuleCache LocalScope : Type}.
Context `{!@Collaborators ModulePtr ModuleCache LocalScope}.
Context `{!@Printer LocalScope}.

Implicit Types (fs : FileSystem) (this : @FileModule LocalScope).
Implicit Types (w : @World ModulePtr ModuleCache).

Lemma handleDependencies_scope fs this w :
  scope (self (handleDependencies fs this w)) = scope this.
Proof.
  unfold handleDependencies. destruct (is_handling_dependencies this); [done|].
  destruct (dependency_loop _ _ _ _) as [[e|] st]; [done|].
  by destruct (apply_updates _ _) as [[e|] dict'].
Qed.

(** X18.  What [print] writes for a file is the same before and after
    [resolveExternals] and before and after [handleDependencies], however
    that ends: key promotion does not show in the printed file.  After
    [addUseNode] or [addIncludeNode] on a new file it is the text of that
    node followed by the text of the scope. *)
Theorem print_unchanged fs this w (stream indent : string) :
  print (resolveExternals fs this w).1 stream indent = print this stream indent /\
  print (self (handleDependencies fs this w)) stream indent =
    print this stream indent /\
  forall (p f g : string) (sc : LocalScope),
    print (addUseNode g (FileModule_new p f sc)) stream indent =
      (stream +:+ print_node (UseNode g) indent) +:+ print_scope sc indent /\
    print (addIncludeNode g (FileModule_new p f sc)) stream indent =
      (stream +:+ print_node (IncludeNode g) indent) +:+ print_scope sc indent.
Proof.
  split; [done|]. split; [|done]. unfold print.
  by rewrite handleDependencies_externalList, handleDependencies_scope.
Qed.

End PrintingProperties.

(** * The functions at work *)

Import Scenario.

Lemma scenario_dict_order (dict : gmap string nat) :
  dict_order dict ≡ₚ map_to_list dict.
Proof. reflexivity. Qed.

(** The cache of the scenario after [evaluate]: as before, or with an
    entry for the file. *)
Lemma evaluate_model_cache fs (c : gmap string (option (string * Z) * Z)) f :
  (evaluate_model fs c f).1 = c \/
  exists entry, (evaluate_model fs c f).1 = <[f := entry]> c.
Proof.
  unfold evaluate_model.
  destruct (stat_mtime fs f) as [mtime|]; [|by left].
  destruct (ifstream_read fs f) as [text|]; [|by left].
  destruct (String.eqb text "throw"); [by left|].
  destruct (c !! f) as [[module cached_mtime]|]; [|right; by eexists].
  destruct (cached_mtime <? mtime); [right; by eexists|by left].
Qed.

Lemma evaluate_model_keeps fs (c : gmap string (option (string * Z) * Z)) f k :
  isCached c k = true -> isCached (evaluate fs c f).1 k = true.
Proof.
  cbn. intros Hk%bool_decide_eq_true. apply bool_decide_eq_true.
  destruct (evaluate_model_cache fs c f) as [->|[entry ->]]; [done|].
  destruct (decide (f = k)) as [->|Hne].
  - rewrite lookup_insert_eq. eauto.
  - by rewrite lookup_insert_ne.
Qed.



(** What the search of the scenario finds under an absolute base
    directory is absolute. *)
Lemma disk_finds_absolute files sourcepath key :
  starts_with_slash sourcepath = true ->
  path_empty (find_valid_path (disk files) sourcepath key) = false ->
  starts_with_slash (find_valid_path (disk files) sourcepath key) = true.
Proof.
  cbn. intros Hbase. destruct (starts_with_slash key) eqn:Hkey.
  - destruct (find_file key files); [done|]. cbn. done.
  - destruct (find_file _ files); [|cbn; done]. intros _.
    destruct sourcepath as [|a sourcepath]; [done|]. cbn in *.
    done.
Qed.

(** ** C4 at work *)

Lemma handleDependencies_reentrant_witness :
  is_handling_dependencies busy_file = true /\
  handleDependencies two_libraries busy_file empty_world =
  mkRun (Returned 0) busy_file empty_world.
Proof.
  split; [reflexivity|].
  apply (handleDependencies_reentrant two_libraries busy_file empty_world).
  reflexivity.
Defined.

(** ** C1 at work *)

Lemma handleDependencies_latest_witness :
  is_handling_dependencies three_uses = false /\
  result (handleDependencies two_libraries three_uses empty_world) =
  Returned 250.
Proof.
  split; [reflexivity|].
  pose proof (handleDependencies_latest scenario_dict_order two_libraries
                three_uses empty_world eq_refl) as Hlatest.
  cbn zeta in Hlatest. destruct Hlatest as (Hres & _).
  rewrite Hres. vm_compute. reflexivity.
Defined.

(** A library dated before 1970: [evaluate] returns -1 for the only
    entry, and the pass returns 0. *)
Lemma handleDependencies_negative_mtime :
  is_handling_dependencies old_user = false /\
  mtimes (visits old_library (path old_user) (mcache empty_world)
            (dict_order (externalDict old_user))) = [-1] /\
  result (handleDependencies old_library old_user empty_world) = Returned 0 /\
  result (handleDependencies old_library old_user empty_world) ≠
    Returned (maximum_or_zero [-1]).
Proof. vm_compute. repeat split; congruence. Qed.

(** ** C10 at work *)

Lemma handleDependencies_exception_keeps_guard_witness :
  is_handling_dependencies throwing_user = false /\
  result (handleDependencies throwing_library throwing_user empty_world) =
    Raised (OtherException "throw") /\
  is_handling_dependencies
    (self (handleDependencies throwing_library throwing_user empty_world)) = true /\
  result
    (handleDependencies two_libraries
       (self (handleDependencies throwing_library throwing_user empty_world))
       empty_world) = Returned 0.
Proof.
  split; [reflexivity|].
  pose proof (handleDependencies_exception_keeps_guard scenario_dict_order
                throwing_library throwing_user empty_world eq_refl) as Hkeeps.
  cbn zeta in Hkeeps. destruct Hkeeps as [Hthrown _].
  destruct (Hthrown (OtherException "throw") ltac:(vm_compute; reflexivity))
    as (Hres & Hguard & _ & Hlater).
  split; [exact Hres|]. split; [exact Hguard|].
  rewrite Hlater. reflexivity.
Defined.

(** ** C2 at work *)

Lemma broken_user_dict :
  externalDict broken_user = {["/lib/broken.scad" := 0%nat]}.
Proof. reflexivity. Qed.



(** ** C3 at work *)

Lemma early_user_dict : externalDict early_user = {["lib/b.scad" := 0%nat]}.
Proof. reflexivity. Qed.

Lemma early_user_after_first_pass :
  externalDict (self (handleDependencies nothing early_user empty_world)) =
  {["lib/b.scad" := 0%nat]}.
Proof. reflexivity. Qed.

Lemma handleDependencies_promotes_keys_witness :
  is_handling_dependencies early_user = false /\
  externalDict (self (handleDependencies nothing early_user empty_world))
    !! "lib/b.scad" = Some 0%nat /\
  externalDict
    (self (handleDependencies library_created
             (self (handleDependencies nothing early_user empty_world))
             empty_world)) !! "lib/b.scad" = None /\
  externalDict
    (self (handleDependencies library_created
             (self (handleDependencies nothing early_user empty_world))
             empty_world)) !! "/proj/lib/b.scad" = Some 0%nat.
Proof.
  split; [reflexivity|].
  pose proof (handleDependencies_promotes_keys scenario_dict_order nothing
                early_user empty_world eq_refl) as Hpromotes.
  cbn zeta in Hpromotes.
  destruct (Hpromotes
              ltac:(intros key _; apply (disk_finds_absolute [] "/proj" key eq_refl))
              ltac:(exists 0; vm_compute; reflexivity))
    as [_ Hentry].
  destruct (Hentry "lib/b.scad" 0%nat ltac:(reflexivity)) as (_ & Hretry & _).
  destruct (Hretry eq_refl eq_refl) as [Hfirst Hsecond].
  split; [exact Hfirst|].
  destruct (Hsecond library_created empty_world eq_refl
              ltac:(intros key _;
                    apply (disk_finds_absolute
                             [mkFile "/proj/lib/b.scad" 100 "cube();"]
                             "/proj" key eq_refl))
              ltac:(exists 100; vm_compute; reflexivity))
    as (Hgone & _ & _ & Hnode).
  split; [exact Hgone|]. apply Hnode.
  - reflexivity.
  - intros key' [node Hkey] _ _. rewrite early_user_after_first_pass in Hkey.
    by apply lookup_singleton_Some in Hkey as [? _].
Defined.

(** One library used as [b.scad] and as [/proj/b.scad]: the relative key
    is found at [/proj/b.scad], which is a key already, so after the pass
    that key still carries the second node and the first node is in the
    dictionary no more. *)
Lemma handleDependencies_drops_reference :
  is_handling_dependencies twice_user = false /\
  externalDict twice_user !! "b.scad" = Some 0%nat /\
  is_absolute "b.scad" = false /\
  find_valid_path one_library (path twice_user) "b.scad" = "/proj/b.scad" /\
  result (handleDependencies one_library twice_user empty_world) =
    Returned 100 /\
  externalDict (self (handleDependencies one_library twice_user empty_world))
    = {["/proj/b.scad" := 1%nat]} /\
  externalDict (self (handleDependencies one_library twice_user empty_world))
    !! "/proj/b.scad" ≠ Some 0%nat.
Proof. vm_compute. repeat split; congruence. Qed.

(** ** C5 at work *)

(** The font [Foo.TTF] lies next to the source file, where the search
    finds it, and not in the working directory: it is not registered and
    an error is printed.  And of two [use] nodes for [a.scad] the
    dictionary holds the first (node 0) under that name, not the second
    (node 1). *)
Lemma resolveUseNodes_font_not_registered :
  externalList font_user = [UseNode "Foo.TTF"] /\
  is_font_file "Foo.TTF" = true /\
  find_valid_path font_beside_source (path font_user) "Foo.TTF" =
    "/proj/Foo.TTF" /\
  fonts (resolveUseNodes font_beside_source font_user empty_world).2 = [] /\
  diag (resolveUseNodes font_beside_source font_user empty_world).2 =
    [FontError "Foo.TTF"] /\
  externalList double_user = [UseNode "a.scad"; UseNode "a.scad"] /\
  externalDict (resolveUseNodes nothing double_user empty_world).1
    !! "a.scad" = Some 0%nat /\
  externalDict (resolveUseNodes nothing double_user empty_world).1
    !! "a.scad" ≠ Some 1%nat.
Proof. vm_compute. repeat split; congruence. Qed.

(** ** C6 at work *)

(** Two includes dated before 1970 give 0 and not the later of the two
    times. *)
Lemma includesChanged_not_the_maximum :
  externalList old_includer =
    [IncludeNode "/old/a.scad"; IncludeNode "/old/b.scad"] /\
  include_mtimes old_includes old_includer = [-5; -3] /\
  includesChanged old_includes old_includer = 0 /\
  includesChanged old_includes old_includer ≠ maximum_or_zero [-5; -3].
Proof. vm_compute. repeat split; congruence. Qed.

(** The lookup of [includeModified] is made on the name in the node: for
    an include that the search finds next to the source file only, it
    fails. *)
Lemma includeModified_name_as_stored :
  externalList includer = [IncludeNode "inc.scad"] /\
  stat_mtime include_beside_source
    (find_valid_path include_beside_source (path includer) "inc.scad") =
    Some 100 /\
  includeModified include_beside_source (IncludeNode "inc.scad") = 0.
Proof. vm_compute. repeat split. Qed.

(** ** C7 at work *)

Lemma instantiate_contains_evaluation_errors_witness :
  instantiate experimental_file 0%nat "inst" (@None unit) empty_world =
  (Returned (mkRootNode "inst" []),
   report (ExceptionMessage "experimental feature") empty_world).
Proof.
  pose proof (instantiate_contains_evaluation_errors (ModulePtr := string * Z)
                (ModuleCache := gmap string (option (string * Z) * Z))
                experimental_file 0%nat "inst" (@None unit) empty_world eq_refl)
    as Hcontained.
  cbn zeta in Hcontained. destruct Hcontained as (_ & _ & Hinit & _).
  apply Hinit. reflexivity.
Defined.

(** ** C8 at work *)

Lemma resolveIncludeNodes_failures_witness :
  externalList failing_includer =
    [IncludeNode "ok.scad"] ++
    IncludeNode "missing.scad" ::
    [IncludeNode "bad.scad"; IncludeNode "gone.scad"] /\
  diag (resolveIncludeNodes some_includes failing_includer empty_world).2
  = [IncludeWarning "missing.scad"; IncludeParseError "/proj/bad.scad"].
Proof.
  split; [reflexivity|].
  pose proof (resolveIncludeNodes_failures some_includes failing_includer
                empty_world [IncludeNode "ok.scad"] (IncludeNode "missing.scad")
                [IncludeNode "bad.scad"; IncludeNode "gone.scad"]
                eq_refl ltac:(repeat constructor)) as Hfailures.
  cbn zeta in Hfailures. destruct Hfailures as (_ & _ & Hskip & _).
  destruct (Hskip "missing.scad" eq_refl eq_refl) as [Hout _].
  rewrite Hout.
  pose proof (resolveIncludeNodes_failures some_includes
                (with_externalList
                   [IncludeNode "bad.scad"; IncludeNode "gone.scad"]
                   failing_includer)
                (report (IncludeWarning "missing.scad")
                   (resolveIncludeNodes some_includes
                      (with_externalList [IncludeNode "ok.scad"] failing_includer)
                      empty_world).2)
                [] (IncludeNode "bad.scad") [IncludeNode "gone.scad"]
                eq_refl ltac:(constructor)) as Hstop.
  cbn zeta in Hstop. destruct Hstop as (_ & _ & _ & Hfail & _).
  destruct (Hfail (IncludeParseError "/proj/bad.scad") eq_refl) as [_ Hdiag].
  rewrite Hdiag. reflexivity.
Defined.

(** ** The further properties at work *)

Lemma handleDependencies_idle_witness :
  is_handling_dependencies early_user = false /\
  handleDependencies nothing early_user empty_world =
  mkRun (Returned 0) early_user empty_world.
Proof.
  split; [reflexivity|].
  apply (handleDependencies_idle scenario_dict_order nothing early_user
           empty_world eq_refl).
  intros key [node Hkey]. rewrite early_user_dict in Hkey.
  apply lookup_singleton_Some in Hkey as [<- _]. reflexivity.
Defined.

Lemma handleDependencies_stable_witness :
  externalDict
    (self (handleDependencies two_libraries
             (self (handleDependencies two_libraries three_uses empty_world))
             empty_world)) =
  externalDict (self (handleDependencies two_libraries three_uses empty_world)).
Proof.
  pose proof (handleDependencies_stable scenario_dict_order two_libraries
                three_uses empty_world eq_refl) as Hstable.
  cbn zeta in Hstable.
  destruct (Hstable
              ltac:(intros key _; apply (disk_finds_absolute _ "/proj" key eq_refl))
              ltac:(exists 250; vm_compute; reflexivity)) as [_ Hsame].
  apply Hsame.
Defined.

Lemma handleDependencies_warnings_distinct_witness :
  is_handling_dependencies broken_user = false /\
  exists warned,
    library_warnings
      (diag (world (handleDependencies broken_library broken_user empty_world))) =
      library_warnings (diag empty_world) ++ warned /\
    NoDup warned.
Proof.
  split; [reflexivity|].
  destruct (handleDependencies_warnings_distinct scenario_dict_order
              broken_library broken_user empty_world eq_refl)
    as (warned & Hwarned & Hdistinct & _).
  exists warned. split; [exact Hwarned|exact Hdistinct].
Defined.

Lemma resolveIncludeNodes_warnings_witness :
  diag (resolveIncludeNodes some_includes careful_includer empty_world).2 =
  [IncludeWarning "missing.scad"].
Proof.
  pose proof (resolveIncludeNodes_warnings some_includes careful_includer
                empty_world ltac:(repeat constructor)) as Hwarnings.
  cbn zeta in Hwarnings. destruct Hwarnings as (_ & _ & _ & Hdiag).
  rewrite Hdiag. reflexivity.
Defined.

Lemma is_font_file_case_insensitive_witness :
  is_font_file "Foo.TTF" = is_font_file "foo.ttf".
Proof. apply is_font_file_case_insensitive. reflexivity. Defined.

Lemma resolveExternals_after_promotion_witness :
  externalDict (self (handleDependencies two_libraries three_uses empty_world))
    !! "lib/b.scad" = None /\
  externalDict
    (resolveExternals two_libraries
       (self (handleDependencies two_libraries three_uses empty_world))
       empty_world).1 !! "lib/b.scad" = Some 0%nat.
Proof.
  pose proof (resolveExternals_after_promotion scenario_dict_order two_libraries
                three_uses empty_world eq_refl) as Hagain.
  cbn zeta in Hagain.
  destruct (Hagain
              ltac:(intros key _; apply (disk_finds_absolute _ "/proj" key eq_refl))
              ltac:(exists 250; vm_compute; reflexivity)
              0%nat "lib/b.scad" eq_refl ltac:(intros j Hj; lia) eq_refl
              ltac:(vm_compute; eauto) eq_refl eq_refl
              two_libraries empty_world)
    as (Hgone & Hback & _).
  split; [exact Hgone|exact Hback].
Defined.

Lemma handleDependencies_cache_invariant_witness :
  isCached
    (mcache (world (handleDependencies two_libraries three_uses
                      (world (handleDependencies broken_library broken_user
                                empty_world)))))
    "/lib/broken.scad" = true.
Proof.
  apply (handleDependencies_cache_invariant
           (fun c => isCached c "/lib/broken.scad" = true)).
  - vm_compute. reflexivity.
  - intros c f. apply evaluate_model_keeps.
Defined.

Lemma handleDependencies_no_promotion_witness :
  externalDict (self (handleDependencies broken_library broken_user empty_world))
  = externalDict broken_user.
Proof.
  apply (handleDependencies_no_promotion scenario_dict_order).
  intros key [node Hkey]. rewrite broken_user_dict in Hkey.
  apply lookup_singleton_Some in Hkey as [<- _]. left. reflexivity.
Defined.

Lemma resolveExternals_then_pass_witness :
  is_Some
    (externalDict
       (self (handleDependencies two_libraries
                (resolveExternals two_libraries fresh_user empty_world).1
                (resolveExternals two_libraries fresh_user empty_world).2))
     !! "/proj/lib/b.scad").
Proof.
  pose proof (resolveExternals_then_pass scenario_dict_order two_libraries
                fresh_user empty_world eq_refl) as Hpass.
  cbn zeta in Hpass.
  destruct (Hpass
              ltac:(intros key _; apply (disk_finds_absolute _ "/proj" key eq_refl))
              ltac:(exists 250; vm_compute; reflexivity)
              "lib/b.scad" "/proj/lib/b.scad"
              ltac:(apply elem_of_cons; by left) eq_refl eq_refl)
    as [Hkey _].
  exact Hkey.
Defined.
